(** * Authorization and vote-state core of the FastAPI social media app

    A shallow embedding of the decision logic of the repository:
    - [app/routers/oauth2.py]: [create_access_token], [decode_access_token];
    - [app/models.py]: [verify_post_owner];
    - [app/database_functions.py]: [read_table] (one definition per query
      text), [VoteManager];
    - [app/routers/post.py]: [like_post];
    - [app/create_database.py]: the schema of [posts], [users], [post_likes].

    Python exceptions are values of [exn]; a handler is a function from the
    database to an outcome and the database it leaves behind. *)

From Stdlib Require Import ZArith String Ascii List Lia.
From Stdlib Require Import DecimalString DecimalZ.
From stdpp Require Import gmap strings list fin_maps.

Local Open Scope Z_scope.

(* ===================================================================== *)
(** ** Python values, exceptions and outcomes *)
(* ===================================================================== *)

(** The values a claim of a token or a query parameter can take here:
    [str] and [int]. *)
Inductive value :=
| VStr (s : string)
| VInt (z : Z).

Global Instance value_eq_dec : EqDecision value.
Proof. solve_decision. Defined.

(** [str(z)] for an [int]. *)
Definition str_of_Z (z : Z) : string := NilEmpty.string_of_int (Z.to_int z).

(** [f"{x}"] for the result of [dict.get]: [None] prints as ["None"]. *)
Definition py_format (x : option value) : string :=
  match x with
  | None => "None"
  | Some (VStr s) => s
  | Some (VInt z) => str_of_Z z
  end.

(** The exceptions that reach the request boundary. [HTTPException] is
    FastAPI's; [IndexError] and [TypeError] are Python's; [DatabaseError]
    stands for what psycopg2 / SQLAlchemy raise when the store rejects a
    statement (the argument names the rejected constraint). *)
Inductive exn :=
| HTTPException (status_code : Z) (detail : string)
| IndexError
| TypeError
| DatabaseError (pgerror : string).

Global Instance exn_eq_dec : EqDecision exn.
Proof. solve_decision. Defined.

Inductive result (A : Type) :=
| Return (a : A)
| Raise (e : exn).
Arguments Return {A} a.
Arguments Raise {A} e.

(* ===================================================================== *)
(** ** The relational store ([create_database.py]) *)
(* ===================================================================== *)

(** The three tables, with their keys and the constraints the handlers
    can meet. A statement either applies and is committed, or is rejected
    by a constraint and leaves the tables as they were. The psycopg2
    connection object that [post.py] opens at import time is not part of
    the state: every statement is taken to run on a usable connection.
    [read_table] opens its own connection for each query and sees what
    was committed. *)

(** [posts]: [id SERIAL PRIMARY KEY], [title], [content], [published],
    [created_at], [updated_at] (nullable), [email] (nullable). *)
Record PostRow := {
  posts_title : string;
  posts_content : string;
  posts_published : bool;
  posts_created_at : Z;
  posts_updated_at : option Z;
  posts_email : option string
}.

(** [users]: [email] is [UNIQUE NOT NULL] and is the column that
    [post_likes] references, so the table is keyed by it. *)
Record UserRow := {
  users_user_id : Z;
  users_phone_number : string;
  users_password : string;
  users_created_at : Z;
  users_city : string;
  users_country : string
}.

(** [post_likes]: [PRIMARY KEY (post_id, email)] is the key of the map. *)
Record LikeRow := {
  post_likes_created_at : Z;
  post_likes_updated_at : Z;
  post_likes_current_status : Z
}.

Record Database := {
  posts : gmap Z PostRow;
  users : gmap string UserRow;
  post_likes : gmap (Z * string) LikeRow
}.

(** A statement that writes [post_likes] only. *)
Definition set_post_likes (db : Database) (pl : gmap (Z * string) LikeRow)
    : Database :=
  {| posts := posts db; users := users db; post_likes := pl |}.

(** The two [FOREIGN KEY] constraints of [post_likes]. *)
Definition foreign_keys (db : Database) : Prop :=
  map_Forall (λ (k : Z * string) (_ : LikeRow),
                is_Some (posts db !! k.1) ∧ is_Some (users db !! k.2))
             (post_likes db).

Global Instance foreign_keys_dec (db : Database) : Decision (foreign_keys db).
Proof. unfold foreign_keys. apply _. Defined.

(** A handler run: the outcome and the database after it. An exception
    stops the run; what was committed before it stays. *)
Definition M (A : Type) : Type := Database → result A * Database.

Global Instance M_ret : MRet M := λ A (a : A) db, (Return a, db).

Global Instance M_bind : MBind M := λ A B (f : A → M B) (m : M A) db,
  match m db with
  | (Return a, db') => f a db'
  | (Raise e, db') => (Raise e, db')
  end.

Definition raise {A : Type} (e : exn) : M A := λ db, (Raise e, db).

(* ===================================================================== *)
(** ** [app/database_functions.py] *)
(* ===================================================================== *)

(** A row of the data frame of the vote lookup: [post_id], [email],
    [current_status]. *)
Record LikeStatusRow := {
  df_post_id : Z;
  df_email : string;
  df_current_status : Z
}.

(** [read_table] with
    [SELECT post_id, email, current_status FROM post_likes
     WHERE post_id = :id AND email = :email].
    [read_table] returns the data frame or re-raises: it never returns
    [None], so the result is always [Some]. A [NULL] parameter matches no
    row; an integer parameter is rejected by the store. *)
Definition read_table_user_post_like_status
    (id : Z) (email : option value) : M (option (list LikeStatusRow)) :=
  λ db,
  match email with
  | None => (Return (Some []), db)
  | Some (VInt _) =>
      (Raise (DatabaseError "operator does not exist: character varying = integer"), db)
  | Some (VStr e) =>
      match post_likes db !! (id, e) with
      | Some r =>
          (Return (Some [ {| df_post_id := id; df_email := e;
                             df_current_status := post_likes_current_status r |} ]), db)
      | None => (Return (Some []), db)
      end
  end.

(** The rows of [posts p JOIN post_likes pl ON pl.post_id = p.id]: [id] is
    the key of [posts], so a vote row appears once when its post exists and
    not at all otherwise. *)
Definition posts_join_post_likes (db : Database) : list LikeRow :=
  snd <$> filter (λ kr : Z * string * LikeRow, is_Some (posts db !! kr.1.1))
                 (map_to_list (post_likes db)).

(** SQL [SUM]: [NULL] over no rows. *)
Definition sql_sum (xs : list Z) : option Z :=
  match xs with
  | [] => None
  | _ => Some (foldr Z.add 0 xs)
  end.

(** The one row of the aggregate query of [like_post]. *)
Record TotalsRow := {
  df_total_likes : option Z;
  df_total_negative_votes : option Z;
  df_total_interactions : Z
}.

(** [read_table] with
    [SELECT SUM(CASE WHEN current_status > 0 THEN 1 ELSE 0 END),
            SUM(CASE WHEN current_status = -1 THEN 1 ELSE 0 END),
            COUNT(current_status)
     FROM posts p JOIN post_likes pl ON pl.post_id = p.id]. *)
Definition read_table_post_likes_query : M TotalsRow := λ db,
  let rows := posts_join_post_likes db in
  (Return {|
     df_total_likes :=
       sql_sum ((λ r, if 0 <? post_likes_current_status r then 1 else 0) <$> rows);
     df_total_negative_votes :=
       sql_sum ((λ r, if post_likes_current_status r =? -1 then 1 else 0) <$> rows);
     df_total_interactions := Z.of_nat (length rows) |}, db).

(** The [data] dictionary of [VoteManager]: keys ['post_id'] and ['email']. *)
Record VoteData := {
  data_post_id : Z;
  data_email : option value
}.

(** [INSERT INTO post_likes (post_id, email, current_status, created_at,
    updated_at) VALUES (%s, %s, %s, CURRENT_TIMESTAMP, CURRENT_TIMESTAMP)],
    then [commit]. The store rejects a [NULL] or mistyped email, a missing
    post, a missing user and a duplicate key. *)
Definition execute_insert_vote (now : Z) (post_id : Z) (email : option value)
    (current_status : Z) : M unit := λ db,
  match email with
  | None => (Raise (DatabaseError "null value in column email"), db)
  | Some (VInt _) => (Raise (DatabaseError "post_likes_email_fkey"), db)
  | Some (VStr e) =>
      match post_likes db !! (post_id, e) with
      | Some _ => (Raise (DatabaseError "post_likes_pkey"), db)
      | None =>
          match posts db !! post_id with
          | None => (Raise (DatabaseError "post_likes_post_id_fkey"), db)
          | Some _ =>
              match users db !! e with
              | None => (Raise (DatabaseError "post_likes_email_fkey"), db)
              | Some _ =>
                  (Return tt,
                   set_post_likes db
                     (<[(post_id, e) :=
                          {| post_likes_created_at := now;
                             post_likes_updated_at := now;
                             post_likes_current_status := current_status |}]>
                        (post_likes db)))
              end
          end
      end
  end.

(** [UPDATE post_likes SET current_status = %s, updated_at =
    CURRENT_TIMESTAMP WHERE post_id = %s AND email = %s], then [commit]. *)
Definition execute_update_vote (now : Z) (post_id : Z) (email : option value)
    (current_status : Z) : M unit := λ db,
  match email with
  | None => (Return tt, db)
  | Some (VInt _) =>
      (Raise (DatabaseError "operator does not exist: character varying = integer"), db)
  | Some (VStr e) =>
      (Return tt,
       set_post_likes db
         (alter (λ r, {| post_likes_created_at := post_likes_created_at r;
                         post_likes_updated_at := now;
                         post_likes_current_status := current_status |})
                (post_id, e) (post_likes db)))
  end.

(** [VoteManager(data, method, current_status, connection)]; [now] is the
    store's [CURRENT_TIMESTAMP]. *)
Definition VoteManager (now : Z) (data : VoteData) (method : string)
    (current_status : Z) : M string :=
  let user_id := data_email data in
  if String.eqb method "add_new_vote" then
    _ ← execute_insert_vote now (data_post_id data) user_id current_status;
    mret "New vote added successfully."
  else if String.eqb method "update_vote" then
    _ ← execute_update_vote now (data_post_id data) user_id current_status;
    mret "Vote updated successfully."
  else
    mret "Invalid method. Use 'add_new_vote' or 'update_vote'.".

(* ===================================================================== *)
(** ** [app/routers/post.py]: [like_post] *)
(* ===================================================================== *)

(** Modelled from the spec: the request body [Vote] of [like_post], which
    [post.py] imports from [app.models] but [models.py] does not define.
    The spec gives its two fields, [direction_of_vote] and [id_], integers. *)
Record Vote := {
  direction_of_vote : Z;
  id_ : Z
}.

(** The response dictionary of [like_post]. *)
Record VoteResponse := {
  Message : string;
  total_likes : Z;
  total_negative_votes : Z;
  total_interactions : Z
}.

(** [int(x)] for a cell of the aggregate row: [int(None)] raises. *)
Definition py_int (x : option Z) : M Z :=
  match x with
  | Some z => mret z
  | None => raise TypeError
  end.

(** [x in (-1, 0, 1)]. *)
Definition in_directions (x : Z) : bool :=
  (x =? -1) || (x =? 0) || (x =? 1).

Definition like_post (now : Z) (vote : Vote) (token_data : gmap string value)
    : M VoteResponse :=
  let direction_of_vote := direction_of_vote vote in
  let id_ := id_ vote in
  if negb (in_directions direction_of_vote) then
    raise (HTTPException 401 "Forbidden, user can only like, dislike, or neutralize.")
  else
    user_post_like_status ←
      read_table_user_post_like_status id_ (token_data !! "user_email");
    match user_post_like_status with
    | None =>
        raise (HTTPException 404
                 "Post not found or user has no previous interaction with this post.")
    | Some df =>
        let data := {| data_post_id := id_;
                       data_email := token_data !! "user_email" |} in
        _ ← match df with
            | [] => VoteManager now data "add_new_vote" 1
            | row :: _ =>
                let user_last_choice := df_current_status row in
                if 0 <=? direction_of_vote then
                  VoteManager now data "update_vote" direction_of_vote
                else if direction_of_vote =? -1 then
                  let absolute_last_choice := Z.abs user_last_choice in
                  let current_status := absolute_last_choice + direction_of_vote in
                  VoteManager now data "update_vote" current_status
                else mret ""
            end;
        post_likes ← read_table_post_likes_query;
        total_likes ← py_int (df_total_likes post_likes);
        total_negative_votes ← py_int (df_total_negative_votes post_likes);
        mret {| Message := "Vote successfully recorded.";
                total_likes := total_likes;
                total_negative_votes := total_negative_votes;
                total_interactions := df_total_interactions post_likes |}
    end.

(* ===================================================================== *)
(** ** [app/models.py]: [verify_post_owner] *)
(* ===================================================================== *)

(** [read_table] with [SELECT email FROM posts WHERE id = {post_id}]: the
    [email] column of the matching rows, [None] for SQL [NULL]. *)
Definition read_table_post_owner (post_id : Z) : M (list (option string)) :=
  λ db,
  match posts db !! post_id with
  | Some p => (Return [posts_email p], db)
  | None => (Return [], db)
  end.

(** [post_owner_email == current_user_email], the left side a [str]. *)
Definition str_eq_value (s : string) (x : option value) : bool :=
  match x with
  | Some (VStr s') => String.eqb s s'
  | _ => false
  end.

Definition verify_post_owner (post_id : Z) (current_user_email : option value)
    (method : string) : M unit :=
  post_owner ← read_table_post_owner post_id;
  match post_owner with
  | [] =>
      raise (HTTPException 403
               ("The post you are trying to " +:+ method +:+ " does not exist."))
  | post_owner_email :: _ =>
      match post_owner_email with
      | None =>
          raise (HTTPException 403
                   ("This is a development post, unauthorized users cannot "
                    +:+ method +:+ " it."))
      | Some post_owner_email =>
          if negb (str_eq_value post_owner_email current_user_email) then
            raise (HTTPException 403
                     ("The post is owned by " +:+ post_owner_email +:+ ", "
                      +:+ py_format current_user_email
                      +:+ " is not authorized to " +:+ method +:+ " it."))
          else mret tt
      end
  end.

(* ===================================================================== *)
(** ** Python [str.split] with a one-character separator *)
(* ===================================================================== *)

(** [s.split(sep)]: never the empty list; [''.split(' ') == ['']]. *)
Fixpoint split (sep : ascii) (s : string) : list string :=
  match s with
  | EmptyString => [EmptyString]
  | String c s' =>
      if Ascii.eqb c sep then EmptyString :: split sep s'
      else match split sep s' with
           | w :: ws => String c w :: ws
           | [] => [String c EmptyString]
           end
  end.

Fixpoint has_char (c : ascii) (s : string) : bool :=
  match s with
  | EmptyString => false
  | String c' s' => Ascii.eqb c' c || has_char c s'
  end.

(* ===================================================================== *)
(** ** [app/config.py] *)
(* ===================================================================== *)

Record Settings := {
  secret_key : string;
  algorithm : string;
  access_token_expire_minutes : Z;
  host : string;
  database : string;
  user : string;
  password : string;
  port : string;
  database_url : string
}.

(* ===================================================================== *)
(** ** The PyJWT calls of [oauth2.py] *)
(* ===================================================================== *)

(** PyJWT is a dependency, not part of the repository. Its compact
    serialisation [b64(header).b64(payload).b64(signature)] is kept in
    shape; the two encodings are stood in for by simpler ones with the same
    interface: base16 for base64url (the alphabet has neither ['.'] nor
    [' ']) and a list of base16 fields for JSON objects whose values are
    strings and integers. The keyed hash is a parameter, total on its
    arguments: the configured algorithm is taken to be one the library
    signs with. Time is the clock reading in whole seconds: the time
    claims are stored in whole seconds, so comparing them with the clock
    and with the clock rounded down agree.

    [jwt.decode] is followed through its checks of the registered claims
    as PyJWT 2.10 makes them with the arguments [oauth2.py] passes (no
    audience, issuer or subject): [iat], [nbf], [exp], [aud], [sub],
    [jti], in that order. What the stand-in does not reproduce: JSON
    values other than strings and integers (a [null] or a list under a
    time claim makes the library raise outside [InvalidTokenError]), the
    interpreter's cap on the digits of an integer, and the [TypeError] of
    [jwt.encode] for an [iss] that is not a string. The properties below
    are stated for issued tokens whose claims stay clear of these. *)

Definition hex_digit (b3 b2 b1 b0 : bool) : ascii :=
  match b3, b2, b1, b0 with
  | false, false, false, false => "0"
  | false, false, false, true => "1"
  | false, false, true, false => "2"
  | false, false, true, true => "3"
  | false, true, false, false => "4"
  | false, true, false, true => "5"
  | false, true, true, false => "6"
  | false, true, true, true => "7"
  | true, false, false, false => "8"
  | true, false, false, true => "9"
  | true, false, true, false => "a"
  | true, false, true, true => "b"
  | true, true, false, false => "c"
  | true, true, false, true => "d"
  | true, true, true, false => "e"
  | true, true, true, true => "f"
  end%char.

Definition hex_value (c : ascii) : option (bool * bool * bool * bool) :=
  (if Ascii.eqb c "0" then Some (false, false, false, false)
   else if Ascii.eqb c "1" then Some (false, false, false, true)
   else if Ascii.eqb c "2" then Some (false, false, true, false)
   else if Ascii.eqb c "3" then Some (false, false, true, true)
   else if Ascii.eqb c "4" then Some (false, true, false, false)
   else if Ascii.eqb c "5" then Some (false, true, false, true)
   else if Ascii.eqb c "6" then Some (false, true, true, false)
   else if Ascii.eqb c "7" then Some (false, true, true, true)
   else if Ascii.eqb c "8" then Some (true, false, false, false)
   else if Ascii.eqb c "9" then Some (true, false, false, true)
   else if Ascii.eqb c "a" then Some (true, false, true, false)
   else if Ascii.eqb c "b" then Some (true, false, true, true)
   else if Ascii.eqb c "c" then Some (true, true, false, false)
   else if Ascii.eqb c "d" then Some (true, true, false, true)
   else if Ascii.eqb c "e" then Some (true, true, true, false)
   else if Ascii.eqb c "f" then Some (true, true, true, true)
   else None)%char.

(** Text-safe encoding of a byte string, two digits per byte. *)
Fixpoint b64encode (s : string) : string :=
  match s with
  | EmptyString => EmptyString
  | String (Ascii b0 b1 b2 b3 b4 b5 b6 b7) s' =>
      String (hex_digit b7 b6 b5 b4) (String (hex_digit b3 b2 b1 b0) (b64encode s'))
  end.

Fixpoint b64decode (s : string) : option string :=
  match s with
  | EmptyString => Some EmptyString
  | String _ EmptyString => None
  | String h (String l s') =>
      match hex_value h, hex_value l, b64decode s' with
      | Some (b7, b6, b5, b4), Some (b3, b2, b1, b0), Some r =>
          Some (String (Ascii b0 b1 b2 b3 b4 b5 b6 b7) r)
      | _, _, _ => None
      end
  end.

(** A list of fields as text: each field encoded and closed by [';']. *)
Definition pack (fields : list string) : string :=
  foldr (λ f acc, b64encode f +:+ String ";"%char acc) EmptyString fields.

Fixpoint decode_all (segments : list string) : option (list string) :=
  match segments with
  | [] => Some []
  | x :: xs =>
      match b64decode x, decode_all xs with
      | Some y, Some ys => Some (y :: ys)
      | _, _ => None
      end
  end.

Definition unpack (s : string) : option (list string) :=
  let parts := split ";"%char s in
  match last parts with
  | Some EmptyString => decode_all (removelast parts)
  | _ => None
  end.

Definition Z_of_str (s : string) : option Z :=
  Z.of_int <$> NilEmpty.int_of_string s.

(** An object as fields: key, type tag, value, for each member. *)
Definition entry_fields (kv : string * value) : list string :=
  match kv.2 with
  | VStr s => [kv.1; "s"; s]
  | VInt z => [kv.1; "i"; str_of_Z z]
  end.

Fixpoint fields_entries (fields : list string) : option (list (string * value)) :=
  match fields with
  | [] => Some []
  | k :: tag :: v :: rest =>
      match (if String.eqb tag "s" then Some (VStr v)
             else if String.eqb tag "i" then VInt <$> Z_of_str v
             else None),
            fields_entries rest with
      | Some x, Some es => Some ((k, x) :: es)
      | _, _ => None
      end
  | _ => None
  end.

Definition json_dumps (obj : gmap string value) : string :=
  pack (concat (entry_fields <$> map_to_list obj)).

Definition json_loads (s : string) : option (gmap string value) :=
  match unpack s with
  | Some fields => list_to_map <$> fields_entries fields
  | None => None
  end.

(** The exceptions of [jwt.decode]; all of them are [InvalidTokenError]s. *)
Inductive jwt_exception :=
| DecodeError
| InvalidAlgorithmError
| InvalidSignatureError
| ExpiredSignatureError
| ImmatureSignatureError
| InvalidIssuedAtError
| InvalidAudienceError
| InvalidSubjectError
| InvalidJTIError.

(** The blanks Python's [int] strips from a [str] of code points below
    256: tab to carriage return, space, 0x85 and 0xA0. *)
Definition int_isspace (c : ascii) : bool :=
  let n := nat_of_ascii c in
  ((9 <=? n) && (n <=? 13) || (n =? 32) || (n =? 133) || (n =? 160))%nat.

Definition digit_value (c : ascii) : option Z :=
  let n := nat_of_ascii c in
  if ((48 <=? n) && (n <=? 57))%nat then Some (Z.of_nat (n - 48)) else None.

Fixpoint lstrip (s : string) : string :=
  match s with
  | EmptyString => EmptyString
  | String c s' => if int_isspace c then lstrip s' else s
  end.

Fixpoint rstrip (s : string) : string :=
  match s with
  | EmptyString => EmptyString
  | String c s' =>
      match rstrip s' with
      | EmptyString => if int_isspace c then EmptyString else String c EmptyString
      | r => String c r
      end
  end.

(** The digits after a first digit; one underscore may stand between two
    digits. *)
Fixpoint int_digits (acc : Z) (s : string) : option Z :=
  match s with
  | EmptyString => Some acc
  | String c s' =>
      match digit_value c with
      | Some d => int_digits (10 * acc + d) s'
      | None =>
          if Ascii.eqb c "_" then
            match s' with
            | String c' s'' =>
                match digit_value c' with
                | Some d => int_digits (10 * acc + d) s''
                | None => None
                end
            | EmptyString => None
            end
          else None
      end
  end.

(** Python's [int(s)] for a [str]: blanks stripped at both ends, an
    optional sign, then digits; [None] for [ValueError]. *)
Definition int_of_str (s : string) : option Z :=
  let s := rstrip (lstrip s) in
  let signed : bool * string :=
    match s with
    | String c body =>
        if Ascii.eqb c "-" then (true, body)
        else if Ascii.eqb c "+" then (false, body)
        else (false, s)
    | EmptyString => (false, s)
    end in
  match signed.2 with
  | String c rest =>
      match digit_value c with
      | Some d => (λ z, if signed.1 then - z else z) <$> int_digits d rest
      | None => None
      end
  | EmptyString => None
  end.

(** [int(x)] for a claim. *)
Definition int_of_value (x : value) : option Z :=
  match x with
  | VInt z => Some z
  | VStr s => int_of_str s
  end.

(** [bool(x)] for a claim. *)
Definition truthy (x : value) : bool :=
  match x with
  | VStr s => negb (String.eqb s "")
  | VInt z => negb (z =? 0)
  end.

(** The registered claims other than [exp]. *)
Definition registered_claims : list string :=
  ["iss"; "sub"; "aud"; "nbf"; "iat"; "jti"].

Section TokenService.

(** The keyed hash of the signing algorithm: algorithm name, key,
    message. *)
Variable sign : string → string → string → string.

(** [jwt.encode(payload, key, algorithm=algorithm)]: the token it
    returns. The library raises [TypeError] instead for a payload whose
    [iss] is not a string; this function gives the token it would have
    built, and nothing is stated below about such a payload. *)
Definition jwt_encode (payload : gmap string value) (key : string)
    (algorithm : string) : string :=
  let header : gmap string value :=
    <["alg" := VStr algorithm]> {["typ" := VStr "JWT"]} in
  let signing_input :=
    b64encode (json_dumps header) +:+ "." +:+ b64encode (json_dumps payload) in
  signing_input +:+ "." +:+ b64encode (sign algorithm key signing_input).

(** The [exp] check of [jwt.decode]: [int(payload['exp'])], then expired
    when [exp <= now]. *)
Definition validate_exp (now : Z) (payload : gmap string value)
    : jwt_exception + gmap string value :=
  match payload !! "exp" with
  | None => inr payload
  | Some x =>
      match int_of_value x with
      | None => inl DecodeError
      | Some exp =>
          if exp <=? now then inl ExpiredSignatureError else inr payload
      end
  end.

(** The [iat] and [nbf] checks: an integer, and not later than the
    clock. *)
Definition validate_iat (now : Z) (payload : gmap string value)
    : option jwt_exception :=
  match payload !! "iat" with
  | None => None
  | Some x =>
      match int_of_value x with
      | None => Some InvalidIssuedAtError
      | Some iat => if now <? iat then Some ImmatureSignatureError else None
      end
  end.

Definition validate_nbf (now : Z) (payload : gmap string value)
    : option jwt_exception :=
  match payload !! "nbf" with
  | None => None
  | Some x =>
      match int_of_value x with
      | None => Some DecodeError
      | Some nbf => if now <? nbf then Some ImmatureSignatureError else None
      end
  end.

(** The checks that need no argument of [jwt.decode]: no audience was
    given, so a non-empty [aud] is refused; [sub] and [jti] are
    strings. *)
Definition validate_aud (payload : gmap string value) : option jwt_exception :=
  match payload !! "aud" with
  | Some x => if truthy x then Some InvalidAudienceError else None
  | None => None
  end.

Definition validate_sub (payload : gmap string value) : option jwt_exception :=
  match payload !! "sub" with
  | Some (VInt _) => Some InvalidSubjectError
  | _ => None
  end.

Definition validate_jti (payload : gmap string value) : option jwt_exception :=
  match payload !! "jti" with
  | Some (VInt _) => Some InvalidJTIError
  | _ => None
  end.

(** The claim checks of [jwt.decode] in their order. *)
Definition validate_claims (now : Z) (payload : gmap string value)
    : jwt_exception + gmap string value :=
  match validate_iat now payload with
  | Some e => inl e
  | None =>
      match validate_nbf now payload with
      | Some e => inl e
      | None =>
          match validate_exp now payload with
          | inl e => inl e
          | inr _ =>
              match validate_aud payload with
              | Some e => inl e
              | None =>
                  match validate_sub payload with
                  | Some e => inl e
                  | None =>
                      match validate_jti payload with
                      | Some e => inl e
                      | None => inr payload
                      end
                  end
              end
          end
      end
  end.

(** [jwt.decode(token, key, algorithms=algorithms)] at clock reading
    [now] (whole seconds): segments, header, signature, payload, claims,
    in that order. *)
Definition jwt_decode (now : Z) (token : string) (key : string)
    (algorithms : list string) : jwt_exception + gmap string value :=
  match split "."%char token with
  | [header_segment; payload_segment; crypto_segment] =>
      match b64decode header_segment ≫= json_loads with
      | None => inl DecodeError
      | Some header =>
          match b64decode payload_segment, b64decode crypto_segment with
          | Some payload_text, Some signature =>
              match header !! "alg" with
              | Some (VStr alg) =>
                  if bool_decide (alg ∈ algorithms) then
                    if String.eqb signature
                         (sign alg key (header_segment +:+ "." +:+ payload_segment))
                    then
                      match json_loads payload_text with
                      | None => inl DecodeError
                      | Some payload => validate_claims now payload
                      end
                    else inl InvalidSignatureError
                  else inl InvalidAlgorithmError
              | _ => inl InvalidAlgorithmError
              end
          | _, _ => inl DecodeError
          end
      end
  | _ => inl DecodeError
  end.

(* =================================================================== *)
(** ** [app/routers/oauth2.py] *)
(* =================================================================== *)

Variable settings : Settings.

Definition SECRET_KEY : string := secret_key settings.
Definition ALGORITHM : string := algorithm settings.
Definition ACCESS_TOKEN_EXPIRE_MINUTES : Z := access_token_expire_minutes settings.

(** [create_access_token(data)] at clock reading [now] (whole seconds of
    [datetime.now(timezone.utc)]; [jwt.encode] stores [exp] in whole
    seconds). *)
Definition create_access_token (now : Z) (data : gmap string value) : string :=
  let to_encode := data in
  let expire := now + 60 * ACCESS_TOKEN_EXPIRE_MINUTES in
  let to_encode := <["exp" := VInt expire]> to_encode in
  let encoded_jwt := jwt_encode to_encode SECRET_KEY ALGORITHM in
  encoded_jwt.

(** [decode_access_token(Authorization)] at clock reading [now]. *)
Definition decode_access_token (now : Z) (Authorization : option string)
    : result (gmap string value) :=
  match Authorization with
  | None => Raise (HTTPException 401 "Authorization header missing")
  | Some Authorization =>
      match split " "%char Authorization !! 1%nat with
      | None => Raise IndexError
      | Some token =>
          match jwt_decode now token SECRET_KEY [ALGORITHM] with
          | inr decoded_jwt => Return decoded_jwt
          | inl ExpiredSignatureError =>
              Raise (HTTPException 401 "Token has expired")
          | inl _ => Raise (HTTPException 401 "Invalid token")
          end
      end
  end.

End TokenService.

(* ===================================================================== *)
(** ** Vocabulary of the properties *)
(* ===================================================================== *)

(** The stored status of voter [e] on post [id], if there is a row. *)
Definition status_of (db : Database) (id : Z) (e : string) : option Z :=
  post_likes_current_status <$> post_likes db !! (id, e).

(** The number of vote rows joined to an existing post whose status
    satisfies [P], counted on the table itself. *)
Definition count_votes (P : Z → Prop) `{∀ z, Decision (P z)} (db : Database) : Z :=
  Z.of_nat (size (filter (λ kr : Z * string * LikeRow,
                            P (post_likes_current_status kr.2)
                            ∧ is_Some (posts db !! kr.1.1))
                         (post_likes db))).

(** The last statements of [like_post]: the aggregate query and the
    response built from its row. *)
Definition recount : M VoteResponse :=
  post_likes ← read_table_post_likes_query;
  total_likes ← py_int (df_total_likes post_likes);
  total_negative_votes ← py_int (df_total_negative_votes post_likes);
  mret {| Message := "Vote successfully recorded.";
          total_likes := total_likes;
          total_negative_votes := total_negative_votes;
          total_interactions := df_total_interactions post_likes |}.

(** The response over a database with at least one joined vote row. *)
Definition vote_response (db : Database) : VoteResponse :=
  let rows := posts_join_post_likes db in
  {| Message := "Vote successfully recorded.";
     total_likes :=
       Z.of_nat (length (filter (λ r, 0 < post_likes_current_status r) rows));
     total_negative_votes :=
       Z.of_nat (length (filter (λ r, post_likes_current_status r = -1) rows));
     total_interactions := Z.of_nat (length rows) |}.

(** The row written by the first vote and the rewrite of a later one. *)
Definition new_row (now status : Z) : LikeRow :=
  {| post_likes_created_at := now; post_likes_updated_at := now;
     post_likes_current_status := status |}.

Definition updated_row (now status : Z) (r : LikeRow) : LikeRow :=
  {| post_likes_created_at := post_likes_created_at r;
     post_likes_updated_at := now;
     post_likes_current_status := status |}.

(** The status written by [like_post] over an existing row. *)
Definition rewritten_status (direction previous : Z) : Z :=
  if 0 <=? direction then direction else Z.abs previous + direction.

(** Every stored status is one of dislike, neutral, like. *)
Definition statuses_valid (db : Database) : Prop :=
  map_Forall (λ (_ : Z * string) (r : LikeRow),
                post_likes_current_status r ∈ [-1; 0; 1])
             (post_likes db).

Global Instance statuses_valid_dec (db : Database) : Decision (statuses_valid db).
Proof. unfold statuses_valid. apply _. Defined.

(** A sequence of vote requests, each with its clock reading, body and
    token claims; outcomes are dropped, the database is threaded. *)
Definition run_votes (requests : list (Z * Vote * gmap string value))
    (db : Database) : Database :=
  foldl (λ db' q, (like_post q.1.1 q.1.2 q.2 db').2) db requests.

(** The transition table as the specification words it, for the cases
    where it names a result: first interaction, overwrite, and the three
    dislike rows. *)
Definition spec_transition (previous : option Z) (direction : Z) : option Z :=
  match previous with
  | None => Some 1
  | Some x =>
      if (direction =? 0) || (direction =? 1) then Some direction
      else if direction =? -1 then
        if x =? 1 then Some 0
        else if x =? 0 then Some (-1)
        else if x =? -1 then Some (-2)
        else None
      else None
  end.

(* ===================================================================== *)
(** ** Fixtures for the evaluations *)
(* ===================================================================== *)

(** A stand-in keyed hash; the properties hold for every one. *)
Definition example_sign (alg key msg : string) : string := alg +:+ key +:+ msg.

Definition example_settings : Settings :=
  {| secret_key := "secret"; algorithm := "HS256";
     access_token_expire_minutes := 30;
     host := "localhost"; database := "fastapi"; user := "postgres";
     password := "postgres"; port := "5432";
     database_url := "postgresql://postgres@localhost/fastapi" |}.

Definition example_post (owner : option string) : PostRow :=
  {| posts_title := "title"; posts_content := "content";
     posts_published := true; posts_created_at := 0;
     posts_updated_at := None; posts_email := owner |}.

Definition example_user : UserRow :=
  {| users_user_id := 1; users_phone_number := "0100"; users_password := "Password1!";
     users_created_at := 0; users_city := "Cairo"; users_country := "Egypt" |}.

Definition example_like (status : Z) : LikeRow :=
  {| post_likes_created_at := 0; post_likes_updated_at := 0;
     post_likes_current_status := status |}.

(** Post 1 owned by ann, post 2 without owner; users ann and bob; no votes. *)
Definition example_db : Database :=
  {| posts := {[ 1 := example_post (Some "ann@example.com");
                 2 := example_post None ]};
     users := {[ "ann@example.com" := example_user;
                 "bob@example.com" := example_user ]};
     post_likes := ∅ |}.

(** [example_db] with one vote of bob on post 1. *)
Definition example_db_voted (status : Z) : Database :=
  set_post_likes example_db {[ (1, "bob@example.com") := example_like status ]}.

(** [example_db] after bob's vote on post 1 was rewritten at [now]. *)
Definition example_db_rewritten (now status previous : Z) : Database :=
  set_post_likes example_db
    {[ (1, "bob@example.com") := updated_row now status (example_like previous) ]}.

Definition example_response (likes negatives interactions : Z) : VoteResponse :=
  {| Message := "Vote successfully recorded.";
     total_likes := likes;
     total_negative_votes := negatives;
     total_interactions := interactions |}.

Definition bob_token : gmap string value :=
  {[ "user_email" := VStr "bob@example.com" ]}.

Definition example_vote (direction : Z) (id : Z) : Vote :=
  {| direction_of_vote := direction; id_ := id |}.

(* ===================================================================== *)
(** ** [app/database_functions.py]: [DropPost], [UpdatePost] *)
(* ===================================================================== *)

(** [DropPost(post_id, connection)]:
    [DELETE FROM posts WHERE id = %s RETURNING *], [fetchone], [commit].
    [post_likes.post_id] is declared [ON DELETE CASCADE], so the votes of
    the post go with it. The result is the message. *)
Definition DropPost (post_id : Z) : M string := λ db,
  match posts db !! post_id with
  | Some _ =>
      (Return "Post is successfully deleted.",
       {| posts := delete post_id (posts db);
          users := users db;
          post_likes :=
            filter (λ kr : Z * string * LikeRow, kr.1.1 ≠ post_id) (post_likes db) |})
  | None => (Return "Post was already deleted or does not exist.", db)
  end.

(** The request body [Post] of [models.py]. *)
Module Post.
Record t := {
  title : string;
  content : string;
  published : bool
}.
End Post.

(** The values of the [updates] dictionary of [UpdatePost]: [str], [bool]
    and [datetime]. *)
Inductive field :=
| FStr (s : string)
| FBool (b : bool)
| FTime (t : Z).

(** [post.model_dump()]. *)
Definition model_dump (post : Post.t) : gmap string field :=
  <["title" := FStr (Post.title post)]>
    (<["content" := FStr (Post.content post)]>
       {["published" := FBool (Post.published post)]}).

Section UpdatePost.

(** The statement [UPDATE posts SET ... WHERE id = %s RETURNING *] built
    from the keys of [updates], with [fetchone] and [commit]: an outcome
    that tells whether a row came back, and the database after it. The
    store's reading of the assignments is left open. *)
Variable execute_update_posts :
  gmap string field → Z → Database → result bool * Database.

(** [UpdatePost(post_id, updates, connection)] at clock reading [now]. *)
Definition UpdatePost (now : Z) (post_id : Z) (updates : gmap string field)
    : M string :=
  let updates :=
    if bool_decide (is_Some (updates !! "id")) then delete "id" updates
    else updates in
  if bool_decide (updates = ∅) then mret "No valid fields to update."
  else
    let updates := <["updated_at" := FTime now]> updates in
    updated_post ← execute_update_posts updates post_id;
    if updated_post : bool then mret "Post updated successfully."
    else mret "Post does not exist or was already deleted.".

(** [update_post(id, post, token_data)] of [post.py]; the result is the
    value under ['Message']. *)
Definition update_post (now : Z) (id : Z) (post : Post.t)
    (token_data : gmap string value) : M string :=
  _ ← verify_post_owner id (token_data !! "user_email") "update";
  message ← UpdatePost now id (model_dump post);
  mret message.

End UpdatePost.

(* ===================================================================== *)
(** ** [app/routers/post.py]: [delete_post], [find_post], [get_post] *)
(* ===================================================================== *)

(** [delete_post(id, token_data)]; the result is the value under
    ['Message']. *)
Definition delete_post (id : Z) (token_data : gmap string value) : M string :=
  _ ← verify_post_owner id (token_data !! "user_email") "delete";
  message ← DropPost id;
  mret message.

(** A cell of a data frame of [posts]; [CNull] is what pandas puts for SQL
    [NULL]. *)
Inductive cell :=
| CNull
| CInt (z : Z)
| CStr (s : string)
| CBool (b : bool)
| CTime (t : Z).

(** The columns of [SELECT * FROM posts], in table order. *)
Definition posts_columns : list string :=
  ["id"; "title"; "content"; "published"; "created_at"; "updated_at"; "email"].

(** The cell of a row of [posts] under a column. *)
Definition posts_cell (column : string) (id : Z) (r : PostRow) : cell :=
  if String.eqb column "id" then CInt id
  else if String.eqb column "title" then CStr (posts_title r)
  else if String.eqb column "content" then CStr (posts_content r)
  else if String.eqb column "published" then CBool (posts_published r)
  else if String.eqb column "created_at" then CTime (posts_created_at r)
  else if String.eqb column "updated_at" then
    match posts_updated_at r with Some t => CTime t | None => CNull end
  else match posts_email r with Some e => CStr e | None => CNull end.

(** The rows of a data frame with their index labels [n], [n+1], ... *)
Fixpoint enumerate_from {A} (n : nat) (l : list A) : list (nat * A) :=
  match l with
  | [] => []
  | x :: l' => (n, x) :: enumerate_from (S n) l'
  end.

(** [read_table('SELECT * FROM posts')]: the rows in the order the store
    scans them, labelled from 0. The scan order is the store's; here it is
    the order of [map_to_list]. *)
Definition read_table_posts : M (list (nat * (Z * PostRow))) := λ db,
  (Return (enumerate_from 0 (map_to_list (posts db))), db).

(** [find_post(id)]: [users_posts.loc[users_posts.id == id].to_dict()], a
    dictionary from each column to the dictionary from index label to
    cell. *)
Definition find_post (id : Z) : M (gmap string (gmap nat cell)) :=
  users_posts ← read_table_posts;
  let selected :=
    filter (λ ir : nat * (Z * PostRow), ir.2.1 = id) users_posts in
  mret (list_to_map
          ((λ column,
              (column,
               list_to_map ((λ ir : nat * (Z * PostRow),
                               (ir.1, posts_cell column ir.2.1 ir.2.2))
                            <$> selected)))
           <$> posts_columns)).

(** What [get_post] returns: the dictionary of [find_post] or the error
    dictionary. *)
Inductive get_post_body :=
| FoundPost (p : gmap string (gmap nat cell))
| NotFoundPost (Error : string).

(** [get_post(id, response, token_data)]: the body and the status code set
    on [response], [None] when the handler leaves it alone (FastAPI then
    answers 200). *)
Definition get_post (id : Z) (token_data : gmap string value)
    : M (get_post_body * option Z) :=
  p ← find_post id;
  if bool_decide (p ≠ ∅) then mret (FoundPost p, None)
  else
    mret (NotFoundPost "The ID you searched for seems to not be in our database.",
          Some 404).

(* ===================================================================== *)
(** ** [app/models.py]: [validate_password]; [app/routers/users.py] *)
(* ===================================================================== *)

(** A character is a code point below 256. [char.isupper()] on that
    range: A-Z, and the capital letters of Latin-1 (192-214, 216-222). *)
Definition isupper (char : ascii) : bool :=
  let n := nat_of_ascii char in
  ((65 <=? n) && (n <=? 90) || (192 <=? n) && (n <=? 214)
   || (216 <=? n) && (n <=? 222))%nat.

(** [any(f(char) for char in s)]. *)
Fixpoint any_char (f : ascii → bool) (s : string) : bool :=
  match s with
  | EmptyString => false
  | String c s' => f c || any_char f s'
  end.

(** The outcome of [validate_password]: it returns, or raises
    [PasswordError] with a message. *)
Inductive password_outcome :=
| PasswordAccepted
| PasswordError (message : string).

Definition validate_password (password : string) : password_outcome :=
  if (String.length password <=? 8)%nat then
    PasswordError "Password must be greater than 8 characters."
  else if negb (any_char isupper password) then
    PasswordError "Password must have at least 1 uppercase character."
  else if negb (any_char (λ char, has_char char "*&!#$%") password) then
    PasswordError "Password must have at least 1 special character like (*&!#$%)."
  else PasswordAccepted.

(** The validated request body [User] of [models.py]. *)
Module User.
Record t := {
  phone_number : string;
  email : string;
  password : string;
  city : string;
  country : string
}.
End User.

(** How [insert_dataframe_to_table(..., 'users')] ends: it returns, or
    re-raises SQLAlchemy's [IntegrityError] (whose [orig] is psycopg2's
    [UniqueViolation] or not), or any other exception; [text] is the
    exception's [str]. *)
Inductive to_sql_outcome :=
| Inserted
| IntegrityError (orig_is_UniqueViolation : bool) (text : string)
| OtherException (text : string).

Section CreateUser.

(** [insert_dataframe_to_table(user.model_dump(), 'users')]: the store's
    reading of the insert is left open. *)
Variable insert_dataframe_to_table_users :
  User.t → Database → to_sql_outcome * Database.

(** [create_user(user)]; the result is the value under ['Message']. *)
Definition create_user (user : User.t) : M string := λ db,
  match validate_password (User.password user) with
  | PasswordError message => (Return message, db)
  | PasswordAccepted =>
      match insert_dataframe_to_table_users user db with
      | (Inserted, db') => (Return "The user has been successfully created", db')
      | (IntegrityError true _, db') =>
          (Return "User was not created because the email passed is already used. Please try another email address.", db')
      | (IntegrityError false text, db') =>
          (Return ("User was not created due to: " +:+ text), db')
      | (OtherException text, db') =>
          (Return ("User was not created due to: " +:+ text), db')
      end
  end.

End CreateUser.

(* ===================================================================== *)
(** ** [app/routers/auth.py]: [login]; handlers behind the token *)
(* ===================================================================== *)

(** The request body [Login] of [models.py]. *)
Module Login.
Record t := {
  email : string;
  password : string
}.
End Login.

(** [read_table] with [SELECT password FROM users WHERE email = :email]. *)
Definition read_table_user_password (email : string) : M (list string) := λ db,
  match users db !! email with
  | Some u => (Return [users_password u], db)
  | None => (Return [], db)
  end.

(** What [login] returns: the token dictionary or the message
    dictionary. *)
Inductive LoginResponse :=
| TokenResponse (access_token : string) (token_type : string)
| MessageResponse (message : string).

Section Handlers.

Variable sign : string → string → string → string.
Variable settings : Settings.

(** [login(login_payload)] at clock reading [now]. *)
Definition login (now : Z) (login_payload : Login.t) : M LoginResponse :=
  user_password ← read_table_user_password (Login.email login_payload);
  let access_token :=
    create_access_token sign settings now
      {["user_email" := VStr (Login.email login_payload)]} in
  match user_password with
  | stored :: _ =>
      if String.eqb stored (Login.password login_payload) then
        mret (TokenResponse access_token "bearer")
      else mret (MessageResponse "Authentication Failed, Credentials Do Not Match")
  | [] => mret (MessageResponse "Authentication Failed, Credentials Do Not Match")
  end.

(** A handler with the parameter
    [token_data: dict = Depends(decode_access_token)]: FastAPI calls
    [decode_access_token] on the [Authorization] header and hands its
    result to the handler; an exception of the dependency is the
    response. *)
Definition Depends_decode_access_token {A : Type} (now : Z)
    (Authorization : option string) (handler : gmap string value → M A) : M A :=
  match decode_access_token sign settings now Authorization with
  | Return token_data => handler token_data
  | Raise e => raise e
  end.

(** [DELETE /posts/delete-post/{id}] and [POST /posts/like-post/{id}]. *)
Definition delete_post_route (now : Z) (Authorization : option string) (id : Z)
    : M string :=
  Depends_decode_access_token now Authorization (delete_post id).

(** [store_now] is the store's [CURRENT_TIMESTAMP] when the vote is
    written. *)
Definition like_post_route (now store_now : Z) (Authorization : option string)
    (vote : Vote) : M VoteResponse :=
  Depends_decode_access_token now Authorization (like_post store_now vote).

End Handlers.

(* ===================================================================== *)
(** ** Strings: [split] *)
(* ===================================================================== *)

Lemma split_no_sep (sep : ascii) (s : string) :
  has_char sep s = false → split sep s = [s].
Proof.
  induction s as [|c s IH]; simpl; [done|].
  intros [Hc Hs]%orb_false_elim.
  rewrite Hc, (IH Hs). done.
Qed.

Lemma split_app (sep : ascii) (a b : string) :
  has_char sep a = false →
  split sep (a +:+ String sep b) = a :: split sep b.
Proof.
  induction a as [|c a IH]; simpl.
  - intros _. by rewrite Ascii.eqb_refl.
  - intros [Hc Ha]%orb_false_elim.
    rewrite Hc, (IH Ha). done.
Qed.

Lemma has_char_app (c : ascii) (a b : string) :
  has_char c (a +:+ b) = has_char c a || has_char c b.
Proof.
  induction a as [|x a IH]; simpl; [done|].
  rewrite IH. by rewrite orb_assoc.
Qed.

(* ===================================================================== *)
(** ** The token encodings are injective and text-safe *)
(* ===================================================================== *)

Lemma hex_value_digit (b3 b2 b1 b0 : bool) :
  hex_value (hex_digit b3 b2 b1 b0) = Some (b3, b2, b1, b0).
Proof. destruct b3, b2, b1, b0; reflexivity. Qed.

Lemma b64decode_encode (s : string) : b64decode (b64encode s) = Some s.
Proof.
  induction s as [|[b0 b1 b2 b3 b4 b5 b6 b7] s IH]; [done|].
  cbn [b64encode b64decode].
  rewrite !hex_value_digit, IH. done.
Qed.

Lemma has_char_b64encode (c : ascii) (s : string) :
  hex_value c = None → has_char c (b64encode s) = false.
Proof.
  intros Hc.
  assert (Hd : ∀ b3 b2 b1 b0, Ascii.eqb (hex_digit b3 b2 b1 b0) c = false).
  { intros b3 b2 b1 b0.
    destruct (Ascii.eqb_spec (hex_digit b3 b2 b1 b0) c) as [<-|]; [|done].
    by rewrite hex_value_digit in Hc. }
  induction s as [|[b0 b1 b2 b3 b4 b5 b6 b7] s IH]; [done|].
  cbn [b64encode has_char]. by rewrite !Hd, IH.
Qed.

Lemma decode_all_encode (fields : list string) :
  decode_all (b64encode <$> fields) = Some fields.
Proof.
  induction fields as [|f fields IH]; [done|].
  cbn. by rewrite b64decode_encode, IH.
Qed.

Lemma split_pack (fields : list string) :
  split ";"%char (pack fields) = (b64encode <$> fields) ++ [EmptyString].
Proof.
  induction fields as [|f fields IH]; [done|].
  cbn [pack foldr]. fold (pack fields).
  rewrite split_app by (by apply has_char_b64encode).
  by rewrite IH.
Qed.

Lemma unpack_pack (fields : list string) : unpack (pack fields) = Some fields.
Proof.
  unfold unpack. rewrite split_pack, last_snoc, removelast_last.
  apply decode_all_encode.
Qed.

Lemma Z_of_str_of_Z (z : Z) : Z_of_str (str_of_Z z) = Some z.
Proof.
  unfold Z_of_str, str_of_Z. rewrite NilEmpty.isi. cbn.
  by rewrite DecimalZ.of_to.
Qed.

Lemma fields_entries_fields (es : list (string * value)) :
  fields_entries (concat (entry_fields <$> es)) = Some es.
Proof.
  induction es as [|[k [s|z]] es IH]; [done| |].
  - cbn. cbn in IH. by rewrite IH.
  - cbn. cbn in IH. by rewrite Z_of_str_of_Z, IH.
Qed.

Lemma json_loads_dumps (obj : gmap string value) :
  json_loads (json_dumps obj) = Some obj.
Proof.
  unfold json_loads, json_dumps.
  rewrite unpack_pack, fields_entries_fields. cbn.
  by rewrite list_to_map_to_list.
Qed.

Lemma append_cons (x : ascii) (a b : string) :
  String x a +:+ b = String x (a +:+ b).
Proof. reflexivity. Qed.

Lemma append_assoc (a b c : string) : (a +:+ b) +:+ c = a +:+ (b +:+ c).
Proof.
  induction a as [|x a IH]; [done|].
  change (String x ((a +:+ b) +:+ c) = String x (a +:+ b +:+ c)).
  by f_equal.
Qed.

(* ===================================================================== *)
(** ** Token service: issue, then validate *)
(* ===================================================================== *)

Lemma exp_not_registered : "exp" ∉ registered_claims.
Proof. apply (bool_decide_unpack _). exact I. Qed.

Lemma user_email_not_registered : "user_email" ∉ registered_claims.
Proof. apply (bool_decide_unpack _). exact I. Qed.

(** The claims [login] issues a token for carry no registered claim. *)
Lemma login_claims_plain (email : string) (k : string) :
  k ∈ registered_claims →
  ({["user_email" := VStr email]} : gmap string value) !! k = None.
Proof.
  intros Hk. apply lookup_singleton_ne. intros <-.
  by apply user_email_not_registered.
Qed.

(** Without registered claims besides [exp], only the [exp] check of
    [jwt.decode] can fail. *)
Lemma validate_claims_plain (now : Z) (payload : gmap string value) :
  (∀ k, k ∈ registered_claims → payload !! k = None) →
  validate_claims now payload = validate_exp now payload.
Proof.
  intros Hplain.
  unfold validate_claims, validate_iat, validate_nbf, validate_aud,
    validate_sub, validate_jti.
  rewrite (Hplain "iat"), (Hplain "nbf"), (Hplain "aud"), (Hplain "sub"),
    (Hplain "jti") by (apply (bool_decide_unpack _); exact I).
  unfold validate_exp.
  destruct (payload !! "exp") as [x|]; [|done].
  destruct (int_of_value x) as [z|]; [|done].
  by destruct (z <=? now).
Qed.

Section TokenServiceProperties.

Variable sign : string → string → string → string.
Variable settings : Settings.

Lemma split_compact (h p s : string) :
  split "."%char
    ((b64encode h +:+ "." +:+ b64encode p) +:+ "." +:+ b64encode s)
  = [b64encode h; b64encode p; b64encode s].
Proof.
  rewrite append_assoc.
  change ("." +:+ ?x) with (String "."%char x). rewrite append_cons.
  rewrite split_app by (by apply has_char_b64encode).
  rewrite split_app by (by apply has_char_b64encode).
  by rewrite split_no_sep by (by apply has_char_b64encode).
Qed.

Lemma has_char_space_jwt_encode (payload : gmap string value) (key alg : string) :
  has_char " "%char (jwt_encode sign payload key alg) = false.
Proof.
  unfold jwt_encode. rewrite !has_char_app.
  change ("." +:+ ?x) with (String "."%char x). cbn [has_char].
  rewrite !has_char_b64encode by done. done.
Qed.

(** A token made by [jwt.encode] passes every check of [jwt.decode] up to
    the checks of the claims, against the same key and algorithm. *)
Lemma jwt_decode_encode (now : Z) (payload : gmap string value)
    (key alg : string) :
  jwt_decode sign now (jwt_encode sign payload key alg) key [alg]
  = validate_claims now payload.
Proof.
  unfold jwt_encode, jwt_decode.
  rewrite split_compact.
  rewrite !b64decode_encode. cbn [mbind option_bind].
  rewrite !json_loads_dumps.
  rewrite lookup_insert_eq.
  rewrite bool_decide_eq_true_2 by (apply list_elem_of_singleton; done).
  by rewrite String.eqb_refl.
Qed.

Lemma bearer_token (token : string) :
  has_char " "%char token = false →
  split " "%char ("Bearer " +:+ token) !! 1%nat = Some token.
Proof.
  intros H.
  change ("Bearer " +:+ token) with ("Bearer" +:+ String " "%char token).
  rewrite split_app by done. by rewrite split_no_sep.
Qed.

Lemma decode_created (now t : Z) (data : gmap string value) :
  decode_access_token sign settings t
    (Some ("Bearer " +:+ create_access_token sign settings now data))
  = match validate_claims t
            (<["exp" := VInt (now + 60 * ACCESS_TOKEN_EXPIRE_MINUTES settings)]> data) with
    | inr decoded_jwt => Return decoded_jwt
    | inl ExpiredSignatureError => Raise (HTTPException 401 "Token has expired")
    | inl _ => Raise (HTTPException 401 "Invalid token")
    end.
Proof.
  unfold decode_access_token, create_access_token.
  rewrite bearer_token by apply has_char_space_jwt_encode.
  by rewrite jwt_decode_encode.
Qed.

(** Claims that carry no registered claim besides [exp]: the token that
    is issued for them is accepted until it expires. *)
Lemma decode_created_plain (now t : Z) (data : gmap string value) :
  (∀ k, k ∈ registered_claims → data !! k = None) →
  decode_access_token sign settings t
    (Some ("Bearer " +:+ create_access_token sign settings now data))
  = if now + 60 * ACCESS_TOKEN_EXPIRE_MINUTES settings <=? t
    then Raise (HTTPException 401 "Token has expired")
    else Return (<["exp" := VInt (now + 60 * ACCESS_TOKEN_EXPIRE_MINUTES settings)]> data).
Proof.
  intros Hplain. rewrite decode_created.
  rewrite validate_claims_plain.
  - unfold validate_exp. rewrite lookup_insert_eq. cbn [int_of_value].
    by destruct (_ <=? t).
  - intros k Hk. rewrite lookup_insert_ne; [by apply Hplain|].
    intros <-. by apply exp_not_registered.
Qed.

End TokenServiceProperties.

(* ===================================================================== *)
(** ** The aggregate query *)
(* ===================================================================== *)

Lemma sql_sum_indicator {A} (f : A → bool) (P : A → Prop) `{∀ x, Decision (P x)}
    (rows : list A) :
  (∀ x, f x = true ↔ P x) → rows ≠ [] →
  sql_sum ((λ r, if f r then 1 else 0) <$> rows)
  = Some (Z.of_nat (length (filter P rows))).
Proof.
  intros Hf Hne.
  assert (Hsum : foldr Z.add 0 ((λ r, if f r then 1 else 0) <$> rows)
                 = Z.of_nat (length (filter P rows))).
  { clear Hne. induction rows as [|r rows IH]; [done|].
    cbn [fmap list_fmap foldr]. fold (fmap (M:=list) (λ r, if f r then 1 else 0) rows).
    rewrite IH, filter_cons.
    destruct (decide (P r)) as [HP|HP].
    - apply Hf in HP. rewrite HP. cbn [length]. lia.
    - destruct (f r) eqn:E; [by apply Hf in E|]. lia. }
  destruct rows as [|r rows]; [done|].
  unfold sql_sum. cbn [fmap list_fmap]. by rewrite <- Hsum.
Qed.

Lemma recount_run (db : Database) :
  posts_join_post_likes db ≠ [] → recount db = (Return (vote_response db), db).
Proof.
  intros Hne. unfold recount, read_table_post_likes_query, vote_response.
  unfold mbind, M_bind, mret, M_ret, py_int. cbn beta iota delta [df_total_likes df_total_negative_votes df_total_interactions].
  rewrite (sql_sum_indicator _ (λ r, 0 < post_likes_current_status r)); [| |done].
  2:{ intros r. apply Z.ltb_lt. }
  rewrite (sql_sum_indicator _ (λ r, post_likes_current_status r = -1)); [| |done].
  2:{ intros r. apply Z.eqb_eq. }
  done.
Qed.

Lemma recount_empty (db : Database) :
  posts_join_post_likes db = [] → recount db = (Raise TypeError, db).
Proof.
  intros He. unfold recount, read_table_post_likes_query.
  unfold mbind, M_bind, mret, M_ret, py_int. by rewrite He.
Qed.

Lemma recount_database (db : Database) :
  (recount db).2 = db.
Proof.
  destruct (decide (posts_join_post_likes db = [])) as [He|Hne].
  - by rewrite recount_empty.
  - by rewrite recount_run.
Qed.

Lemma joined_row (db : Database) (id : Z) (e : string) (r : LikeRow) :
  post_likes db !! (id, e) = Some r → is_Some (posts db !! id) →
  posts_join_post_likes db ≠ [].
Proof.
  intros Hr Hp. unfold posts_join_post_likes.
  assert (Hin : r ∈ snd <$> filter (λ kr : Z * string * LikeRow,
                                     is_Some (posts db !! kr.1.1))
                                  (map_to_list (post_likes db))).
  { apply list_elem_of_fmap. exists ((id, e), r). split; [done|].
    apply list_elem_of_filter. split; [done|]. by apply elem_of_map_to_list. }
  intros Hnil. rewrite Hnil in Hin. by destruct (not_elem_of_nil r).
Qed.

(* ===================================================================== *)
(** ** [like_post], case by case *)
(* ===================================================================== *)

Lemma like_post_unfold (now : Z) (vote : Vote) (token_data : gmap string value) :
  like_post now vote token_data
  = if negb (in_directions (direction_of_vote vote)) then
      raise (HTTPException 401 "Forbidden, user can only like, dislike, or neutralize.")
    else
      user_post_like_status ←
        read_table_user_post_like_status (id_ vote) (token_data !! "user_email");
      match user_post_like_status with
      | None =>
          raise (HTTPException 404
                   "Post not found or user has no previous interaction with this post.")
      | Some df =>
          let data := {| data_post_id := id_ vote;
                         data_email := token_data !! "user_email" |} in
          _ ← match df with
              | [] => VoteManager now data "add_new_vote" 1
              | row :: _ =>
                  if 0 <=? direction_of_vote vote then
                    VoteManager now data "update_vote" (direction_of_vote vote)
                  else if direction_of_vote vote =? -1 then
                    VoteManager now data "update_vote"
                      (Z.abs (df_current_status row) + direction_of_vote vote)
                  else mret ""
              end;
          recount
      end.
Proof. reflexivity. Qed.

Ltac run_like_post :=
  rewrite like_post_unfold;
  unfold VoteManager, execute_insert_vote, execute_update_vote,
    read_table_user_post_like_status, mbind, M_bind, mret, M_ret, raise;
  cbn [negb data_post_id data_email df_current_status String.eqb Ascii.eqb Bool.eqb].

Lemma in_directions_cases (d : Z) :
  in_directions d = true ↔ d = -1 ∨ d = 0 ∨ d = 1.
Proof. unfold in_directions. lia. Qed.

Lemma like_post_invalid_direction now vote token_data db :
  in_directions (direction_of_vote vote) = false →
  like_post now vote token_data db
  = (Raise (HTTPException 401
              "Forbidden, user can only like, dislike, or neutralize."), db).
Proof. intros Hd. run_like_post. by rewrite Hd. Qed.

Lemma like_post_first_vote now vote token_data db e :
  in_directions (direction_of_vote vote) = true →
  token_data !! "user_email" = Some (VStr e) →
  post_likes db !! (id_ vote, e) = None →
  is_Some (posts db !! id_ vote) →
  is_Some (users db !! e) →
  let db' := set_post_likes db
               (<[(id_ vote, e) := new_row now 1]> (post_likes db)) in
  like_post now vote token_data db = (Return (vote_response db'), db').
Proof.
  intros Hd He Hrow [p Hp] [u Hu] db'. run_like_post.
  rewrite Hd, He. cbn beta iota delta [negb].
  rewrite Hrow. cbn beta iota. rewrite Hrow, Hp, Hu. cbn beta iota.
  apply recount_run.
  apply (joined_row db' (id_ vote) e (new_row now 1)).
  - apply lookup_insert_eq.
  - by exists p.
Qed.

Lemma like_post_later_vote now vote token_data db e r :
  in_directions (direction_of_vote vote) = true →
  token_data !! "user_email" = Some (VStr e) →
  post_likes db !! (id_ vote, e) = Some r →
  is_Some (posts db !! id_ vote) →
  let db' := set_post_likes db
               (alter (updated_row now
                         (rewritten_status (direction_of_vote vote)
                            (post_likes_current_status r)))
                      (id_ vote, e) (post_likes db)) in
  like_post now vote token_data db = (Return (vote_response db'), db').
Proof.
  intros Hd He Hrow Hp db'. run_like_post.
  rewrite Hd, He. cbn beta iota delta [negb].
  rewrite Hrow. cbn beta iota delta [df_current_status].
  assert (Hne : posts_join_post_likes db' ≠ []).
  { apply (joined_row db' (id_ vote) e
             (updated_row now (rewritten_status (direction_of_vote vote)
                                 (post_likes_current_status r)) r)); [|done].
    cbn. by rewrite lookup_alter_eq, Hrow. }
  unfold db', rewritten_status in *.
  apply in_directions_cases in Hd.
  destruct (0 <=? direction_of_vote vote) eqn:E1.
  - by apply recount_run.
  - destruct (direction_of_vote vote =? -1) eqn:E2; [|lia].
    by apply recount_run.
Qed.

(** Every run of [like_post] is one of: an exception other than 404 with
    the database untouched (bad direction, no usable email in the token, or
    a first vote that the store rejects); the insert of a first vote
    followed by the aggregate query; the rewrite of an existing vote
    followed by the aggregate query. *)
Lemma like_post_cases now vote token_data db :
  (∃ x, like_post now vote token_data db = (Raise x, db)
        ∧ (∀ detail, x ≠ HTTPException 404 detail)
        ∧ (in_directions (direction_of_vote vote) = false
           ∨ (∀ e, token_data !! "user_email" ≠ Some (VStr e))
           ∨ (∃ e, token_data !! "user_email" = Some (VStr e)
                   ∧ post_likes db !! (id_ vote, e) = None
                   ∧ (posts db !! id_ vote = None ∨ users db !! e = None))))
  ∨ (∃ e, token_data !! "user_email" = Some (VStr e)
          ∧ in_directions (direction_of_vote vote) = true
          ∧ post_likes db !! (id_ vote, e) = None
          ∧ is_Some (posts db !! id_ vote)
          ∧ is_Some (users db !! e)
          ∧ like_post now vote token_data db
            = recount (set_post_likes db
                         (<[(id_ vote, e) := new_row now 1]> (post_likes db))))
  ∨ (∃ e r, token_data !! "user_email" = Some (VStr e)
            ∧ in_directions (direction_of_vote vote) = true
            ∧ post_likes db !! (id_ vote, e) = Some r
            ∧ like_post now vote token_data db
              = recount (set_post_likes db
                           (alter (updated_row now
                                     (rewritten_status (direction_of_vote vote)
                                        (post_likes_current_status r)))
                                  (id_ vote, e) (post_likes db)))).
Proof.
  run_like_post.
  destruct (in_directions (direction_of_vote vote)) eqn:Hd; cbn [negb].
  2:{ left. eexists. split; [done|]. split; [discriminate|]. by left. }
  destruct (token_data !! "user_email") as [[e|z]|] eqn:He; cbn beta iota.
  - destruct (post_likes db !! (id_ vote, e)) as [r|] eqn:Hrow; cbn beta iota.
    + right. right. exists e, r. repeat (split; [done|]).
      cbn [df_current_status]. unfold rewritten_status.
      apply in_directions_cases in Hd.
      destruct (0 <=? direction_of_vote vote) eqn:E1; [done|].
      destruct (direction_of_vote vote =? -1) eqn:E2; [done|lia].
    + rewrite Hrow.
      destruct (posts db !! id_ vote) as [p|] eqn:Hp.
      2:{ left. eexists. split; [done|]. split; [discriminate|].
          right. right. exists e. auto. }
      destruct (users db !! e) as [u|] eqn:Hu.
      2:{ left. eexists. split; [done|]. split; [discriminate|].
          right. right. exists e. auto. }
      right. left. exists e. repeat (split; [done|]). done.
  - left. eexists. split; [done|]. split; [discriminate|].
    right. left. intros e. discriminate.
  - left. eexists. split; [done|]. split; [discriminate|].
    right. left. intros e. discriminate.
Qed.

Lemma recount_return (db db' : Database) (response : VoteResponse) :
  recount db = (Return response, db') →
  db' = db ∧ response = vote_response db.
Proof.
  destruct (decide (posts_join_post_likes db = [])) as [He|Hne].
  - rewrite recount_empty by done. discriminate.
  - rewrite recount_run by done. by intros [= <- <-].
Qed.

(** A successful [like_post] answers with the counts of the database it
    leaves. *)
Lemma like_post_return now vote token_data db response db' :
  like_post now vote token_data db = (Return response, db') →
  response = vote_response db'.
Proof.
  destruct (like_post_cases now vote token_data db)
    as [(x & -> & _)|[(e & _ & _ & _ & _ & _ & ->)|(e & r & _ & _ & _ & ->)]].
  - discriminate.
  - by intros [-> ->]%recount_return.
  - by intros [-> ->]%recount_return.
Qed.

(** The database after [like_post], whatever the outcome. *)
Lemma like_post_database now vote token_data db :
  (like_post now vote token_data db).2 = db
  ∨ (∃ e, token_data !! "user_email" = Some (VStr e)
          ∧ in_directions (direction_of_vote vote) = true
          ∧ post_likes db !! (id_ vote, e) = None
          ∧ (like_post now vote token_data db).2
            = set_post_likes db
                (<[(id_ vote, e) := new_row now 1]> (post_likes db)))
  ∨ (∃ e r, token_data !! "user_email" = Some (VStr e)
            ∧ in_directions (direction_of_vote vote) = true
            ∧ post_likes db !! (id_ vote, e) = Some r
            ∧ (like_post now vote token_data db).2
              = set_post_likes db
                  (alter (updated_row now
                            (rewritten_status (direction_of_vote vote)
                               (post_likes_current_status r)))
                         (id_ vote, e) (post_likes db))).
Proof.
  destruct (like_post_cases now vote token_data db)
    as [(x & -> & _)|[(e & ? & ? & ? & _ & _ & ->)|(e & r & ? & ? & ? & ->)]].
  - by left.
  - right. left. exists e. by rewrite recount_database.
  - right. right. exists e, r. by rewrite recount_database.
Qed.

(* ===================================================================== *)
(** ** Counting on the table and counting on the join *)
(* ===================================================================== *)

Lemma length_filter_snd {K A} (P : A → Prop) `{∀ x, Decision (P x)}
    (l : list (K * A)) :
  length (filter P (snd <$> l)) = length (filter (λ kr : K * A, P kr.2) l).
Proof.
  induction l as [|[k a] l IH]; [done|].
  cbn [fmap list_fmap]. fold (fmap (M:=list) (@snd K A) l).
  rewrite !filter_cons. cbn [snd].
  destruct (decide (P a)); cbn [length]; by rewrite IH.
Qed.

Lemma length_filter_map_to_list {K A} `{Countable K}
    (P : K * A → Prop) `{∀ x, Decision (P x)} (m : gmap K A) :
  length (filter P (map_to_list m)) = size (filter P m).
Proof.
  rewrite <- length_map_to_list.
  apply Permutation_length, NoDup_Permutation.
  - apply NoDup_filter, NoDup_map_to_list.
  - apply NoDup_map_to_list.
  - intros [k a]. rewrite list_elem_of_filter, !elem_of_map_to_list.
    rewrite map_lookup_filter_Some. tauto.
Qed.

Lemma count_votes_joined (P : Z → Prop) `{∀ z, Decision (P z)} (db : Database) :
  Z.of_nat (length (filter (λ r, P (post_likes_current_status r))
                           (posts_join_post_likes db)))
  = count_votes P db.
Proof.
  unfold count_votes, posts_join_post_likes. f_equal.
  rewrite length_filter_snd, list_filter_filter.
  apply length_filter_map_to_list.
Qed.

(* ===================================================================== *)
(** ** The vote state machine *)
(* ===================================================================== *)

Lemma like_post_posts_users now vote token_data db :
  posts (like_post now vote token_data db).2 = posts db
  ∧ users (like_post now vote token_data db).2 = users db.
Proof.
  destruct (like_post_database now vote token_data db)
    as [->|[(e & _ & _ & _ & ->)|(e & r & _ & _ & _ & ->)]]; done.
Qed.

Lemma like_post_other_rows now vote token_data db e k :
  token_data !! "user_email" = Some (VStr e) → k ≠ (id_ vote, e) →
  post_likes (like_post now vote token_data db).2 !! k = post_likes db !! k.
Proof.
  intros He Hk.
  destruct (like_post_database now vote token_data db)
    as [->|[(e' & He' & _ & _ & ->)|(e' & r & He' & _ & _ & ->)]]; [done| |].
  - assert (e' = e) as -> by congruence. cbn. by rewrite lookup_insert_ne.
  - assert (e' = e) as -> by congruence. cbn. by rewrite lookup_alter_ne.
Qed.

(** The status of the voter's row after [like_post], in every case. *)
Lemma like_post_status now vote token_data db e :
  token_data !! "user_email" = Some (VStr e) →
  status_of (like_post now vote token_data db).2 (id_ vote) e
  = if in_directions (direction_of_vote vote) then
      match status_of db (id_ vote) e with
      | Some x => Some (rewritten_status (direction_of_vote vote) x)
      | None =>
          if decide (is_Some (posts db !! id_ vote) ∧ is_Some (users db !! e))
          then Some 1 else None
      end
    else status_of db (id_ vote) e.
Proof.
  intros He. unfold status_of.
  destruct (like_post_cases now vote token_data db)
    as [(x & -> & _ & Hwhy)
       |[(e' & He' & Hd & Hrow & Hp & Hu & ->)|(e' & r & He' & Hd & Hrow & ->)]].
  - cbn [snd]. destruct Hwhy as [Hd|[Hno|(e' & He' & Hrow & Hmiss)]].
    + by rewrite Hd.
    + by destruct (Hno e).
    + assert (e' = e) as -> by congruence. rewrite Hrow. cbn.
      destruct (in_directions _); [|done].
      rewrite decide_False; [done|].
      intros [[p Hp] [u Hu]]. destruct Hmiss; congruence.
  - assert (e' = e) as -> by congruence.
    rewrite recount_database, Hd, Hrow. cbn.
    rewrite lookup_insert_eq, decide_True by done. done.
  - assert (e' = e) as -> by congruence.
    rewrite recount_database, Hd, Hrow. cbn.
    by rewrite lookup_alter_eq, Hrow.
Qed.

Lemma status_range (x : Z) : x ∈ [-1; 0; 1] ↔ -1 ≤ x ≤ 1.
Proof. rewrite !elem_of_cons, elem_of_nil. lia. Qed.

Lemma like_post_statuses_valid now vote token_data db :
  statuses_valid db → statuses_valid (like_post now vote token_data db).2.
Proof.
  intros Hv.
  destruct (like_post_database now vote token_data db)
    as [->|[(e & _ & _ & _ & ->)|(e & r & _ & Hd & Hrow & ->)]]; [done| |].
  - apply map_Forall_insert_2; [|done]. cbn. by apply status_range.
  - intros k r'. cbn. rewrite lookup_alter_Some.
    intros [(<- & r0 & Hr0 & ->)|[_ Hk]]; [|by apply (Hv k)].
    cbn. pose proof (Hv _ _ Hrow) as Hx. cbn in Hx.
    apply in_directions_cases in Hd. apply status_range in Hx.
    apply status_range. unfold rewritten_status.
    destruct (0 <=? direction_of_vote vote) eqn:E; lia.
Qed.

Lemma like_post_foreign_keys now vote token_data db :
  foreign_keys db → foreign_keys (like_post now vote token_data db).2.
Proof.
  intros Hfk.
  destruct (like_post_cases now vote token_data db)
    as [(x & -> & _)
       |[(e & _ & _ & _ & Hp & Hu & ->)|(e & r & _ & _ & Hrow & ->)]]; [done| |].
  - rewrite recount_database. by apply map_Forall_insert_2.
  - rewrite recount_database. intros k r'. cbn. rewrite lookup_alter_Some.
    intros [(<- & r0 & Hr0 & ->)|[_ Hk]]; [by apply (Hfk _ _ Hrow)|by apply (Hfk k r')].
Qed.

Lemma run_votes_snoc requests q db :
  run_votes (requests ++ [q]) db
  = (like_post q.1.1 q.1.2 q.2 (run_votes requests db)).2.
Proof. unfold run_votes. by rewrite foldl_app. Qed.

(* ===================================================================== *)
(** ** Token service: outcomes of [decode_access_token] *)
(* ===================================================================== *)

Lemma split_second_none (h : string) :
  has_char " "%char h = false → split " "%char h !! 1%nat = None.
Proof. intros H. by rewrite split_no_sep. Qed.

Lemma split_second_some (h : string) :
  has_char " "%char h = true → is_Some (split " "%char h !! 1%nat).
Proof.
  induction h as [|c h IH]; [done|]. cbn [has_char split].
  destruct (Ascii.eqb c " ") eqn:E.
  - intros _. destruct h as [|c' h]; cbn [split]; [by eexists|].
    destruct (Ascii.eqb c' " "); [by eexists|].
    destruct (split " " h); by eexists.
  - cbn [orb]. intros [w Hw]%IH.
    destruct (split " " h) as [|w0 [|w1 ws]]; [done|done|].
    by eexists.
Qed.

Section DecodeOutcomes.

Variable sign : string → string → string → string.
Variable settings : Settings.

(** A header that carries a second word never raises [IndexError]: it is
    accepted or answered with one of the two token errors. *)
Lemma decode_access_token_with_token (now : Z) (h : string) :
  has_char " "%char h = true →
  (∃ decoded_jwt, decode_access_token sign settings now (Some h) = Return decoded_jwt)
  ∨ decode_access_token sign settings now (Some h)
    = Raise (HTTPException 401 "Token has expired")
  ∨ decode_access_token sign settings now (Some h)
    = Raise (HTTPException 401 "Invalid token").
Proof.
  intros [token Ht]%split_second_some. unfold decode_access_token.
  rewrite Ht.
  destruct (jwt_decode sign now token (SECRET_KEY settings) [ALGORITHM settings])
    as [[]|decoded_jwt]; eauto.
Qed.

Lemma decode_access_token_missing (now : Z) :
  decode_access_token sign settings now None
  = Raise (HTTPException 401 "Authorization header missing").
Proof. reflexivity. Qed.

Lemma decode_access_token_no_space (now : Z) (h : string) :
  has_char " "%char h = false →
  decode_access_token sign settings now (Some h) = Raise IndexError.
Proof.
  intros H. unfold decode_access_token. by rewrite split_second_none.
Qed.

(** A token that is not three segments is answered with "Invalid token". *)
Lemma decode_access_token_malformed (now : Z) (token : string) :
  has_char " "%char token = false → has_char "."%char token = false →
  decode_access_token sign settings now (Some ("Bearer " +:+ token))
  = Raise (HTTPException 401 "Invalid token").
Proof.
  intros Hs Hd. unfold decode_access_token.
  rewrite bearer_token by done.
  unfold jwt_decode. by rewrite split_no_sep.
Qed.

(** A token signed with another key is answered with "Invalid token". *)
Lemma decode_access_token_bad_signature (now : Z)
    (payload : gmap string value) (key : string) :
  sign (ALGORITHM settings) key
    (b64encode (json_dumps (<["alg" := VStr (ALGORITHM settings)]>
                              {["typ" := VStr "JWT"]}))
     +:+ "." +:+ b64encode (json_dumps payload))
  ≠ sign (ALGORITHM settings) (SECRET_KEY settings)
      (b64encode (json_dumps (<["alg" := VStr (ALGORITHM settings)]>
                                {["typ" := VStr "JWT"]}))
       +:+ "." +:+ b64encode (json_dumps payload)) →
  decode_access_token sign settings now
    (Some ("Bearer " +:+ jwt_encode sign payload key (ALGORITHM settings)))
  = Raise (HTTPException 401 "Invalid token").
Proof.
  intros Hsig. unfold decode_access_token.
  rewrite bearer_token by apply has_char_space_jwt_encode.
  unfold jwt_encode, jwt_decode.
  rewrite split_compact, !b64decode_encode. cbn [mbind option_bind].
  rewrite json_loads_dumps, lookup_insert_eq.
  rewrite bool_decide_eq_true_2 by (apply list_elem_of_singleton; done).
  apply String.eqb_neq in Hsig. by rewrite Hsig.
Qed.

End DecodeOutcomes.

(* ===================================================================== *)
(** ** Properties of the vote engine *)
(* ===================================================================== *)

Lemma length_filter_disjoint {A} (P Q : A → Prop)
    `{∀ x, Decision (P x)} `{∀ x, Decision (Q x)} (l : list A) :
  (∀ x, P x → Q x → False) →
  (length (filter P l) + length (filter Q l) ≤ length l)%nat.
Proof.
  intros HPQ. induction l as [|x l IH]; [done|].
  rewrite !filter_cons.
  destruct (decide (P x)) as [HP|HP], (decide (Q x)) as [HQ|HQ];
    cbn [length]; [by destruct (HPQ x)|lia..].
Qed.

(** C1 (amended). For every post in the store, every registered voter and
    every direction d in {-1, 0, 1}, [like_post] succeeds, leaves posts,
    users and every other vote row as they were, and sets the voter's
    status by this table: no row, any d: a row with status 1 is inserted;
    a row with status x and d in {0, 1}: status d; a row with status x and
    d = -1: status abs x - 1, so 1 maps to 0, 0 maps to -1 and -1 maps
    to 0. *)
Theorem like_post_transition_table now vote token_data db e :
  in_directions (direction_of_vote vote) = true →
  token_data !! "user_email" = Some (VStr e) →
  is_Some (posts db !! id_ vote) →
  is_Some (users db !! e) →
  ∃ response db',
    like_post now vote token_data db = (Return response, db')
    ∧ posts db' = posts db ∧ users db' = users db
    ∧ (∀ k, k ≠ (id_ vote, e) → post_likes db' !! k = post_likes db !! k)
    ∧ status_of db' (id_ vote) e
      = Some (match status_of db (id_ vote) e with
              | None => 1
              | Some x =>
                  if decide (direction_of_vote vote = -1) then Z.abs x - 1
                  else direction_of_vote vote
              end)
    ∧ (direction_of_vote vote = -1 →
       (status_of db (id_ vote) e = Some 1 → status_of db' (id_ vote) e = Some 0)
       ∧ (status_of db (id_ vote) e = Some 0 → status_of db' (id_ vote) e = Some (-1))
       ∧ (status_of db (id_ vote) e = Some (-1) → status_of db' (id_ vote) e = Some 0)).
Proof.
  intros Hd He Hp Hu.
  assert (Hrun : ∃ response,
             like_post now vote token_data db
             = (Return response, (like_post now vote token_data db).2)).
  { destruct (post_likes db !! (id_ vote, e)) as [r|] eqn:Hrow.
    - rewrite (like_post_later_vote now vote token_data db e r) by done.
      by eexists.
    - rewrite (like_post_first_vote now vote token_data db e) by done.
      by eexists. }
  destruct Hrun as [response Hrun].
  exists response, (like_post now vote token_data db).2.
  split; [done|].
  destruct (like_post_posts_users now vote token_data db) as [-> ->].
  do 2 (split; [done|]).
  split; [intros k Hk; by apply (like_post_other_rows _ _ _ _ e)|].
  assert (Hst : status_of (like_post now vote token_data db).2 (id_ vote) e
                = Some (match status_of db (id_ vote) e with
                        | None => 1
                        | Some x =>
                            if decide (direction_of_vote vote = -1) then Z.abs x - 1
                            else direction_of_vote vote
                        end)).
  { rewrite like_post_status, Hd by done.
    destruct (status_of db (id_ vote) e) as [x|].
    - f_equal. unfold rewritten_status. apply in_directions_cases in Hd.
      destruct (decide (direction_of_vote vote = -1)) as [->|Hn]; [done|].
      destruct (0 <=? direction_of_vote vote) eqn:E; lia.
    - by rewrite decide_True. }
  split; [done|].
  intros Hm1.
  repeat split; intros Hs; rewrite Hst, Hs; by rewrite decide_True.
Qed.

Lemma like_post_transition_table_witness :
  ∃ response db',
    like_post 5 (example_vote (-1) 1) bob_token (example_db_voted (-1))
    = (Return response, db')
    ∧ status_of db' 1 "bob@example.com" = Some 0.
Proof.
  destruct (like_post_transition_table 5 (example_vote (-1) 1) bob_token
              (example_db_voted (-1)) "bob@example.com")
    as (response & db' & Hrun & _ & _ & _ & _ & Hdislike).
  - reflexivity.
  - reflexivity.
  - vm_compute. eauto.
  - vm_compute. eauto.
  - exists response, db'. split; [exact Hrun|].
    apply Hdislike; reflexivity.
Defined.

(** C1 as stated fails at its row "-1 maps to -2": a dislike over a stored
    dislike leaves status 0, where the table of the specification has -2. *)
Lemma like_post_dislike_over_dislike :
  status_of (like_post 5 (example_vote (-1) 1) bob_token (example_db_voted (-1))).2
            1 "bob@example.com" = Some 0
  ∧ status_of (like_post 5 (example_vote (-1) 1) bob_token (example_db_voted (-1))).2
              1 "bob@example.com"
    ≠ spec_transition (status_of (example_db_voted (-1)) 1 "bob@example.com") (-1).
Proof. split; [by vm_compute|]. vm_compute. discriminate. Qed.

(** C4. Whenever [like_post] succeeds, its response carries, over the
    database it leaves: total_likes, the number of vote rows of existing
    posts with status > 0; total_negative_votes, the number with status
    = -1; total_interactions, the number of all of them. The counts range
    over all posts, not only the one voted on. *)
Theorem like_post_aggregate now vote token_data db response db' :
  like_post now vote token_data db = (Return response, db') →
  total_likes response = count_votes (λ z, 0 < z) db'
  ∧ total_negative_votes response = count_votes (λ z, z = -1) db'
  ∧ total_interactions response = count_votes (λ _, True) db'.
Proof.
  intros ->%like_post_return. unfold vote_response.
  cbn [total_likes total_negative_votes total_interactions].
  split; [exact (@count_votes_joined (λ z, 0 < z) (λ z, decide (0 < z)) db')|].
  split; [exact (@count_votes_joined (λ z, z = -1) (λ z, decide (z = -1)) db')|].
  etrans; [|exact (@count_votes_joined (λ _, True) (λ _, decide True) db')].
  do 2 f_equal.
  induction (posts_join_post_likes db') as [|r rows IH]; [done|].
  rewrite filter_cons_True by done. by f_equal.
Qed.

Lemma like_post_aggregate_witness :
  like_post 5 (example_vote 1 1) bob_token (example_db_voted (-1))
  = (Return (example_response 1 0 1), example_db_rewritten 5 1 (-1))
  ∧ count_votes (λ z, 0 < z) (example_db_rewritten 5 1 (-1)) = 1
  ∧ count_votes (λ z, z = -1) (example_db_rewritten 5 1 (-1)) = 0
  ∧ count_votes (λ _, True) (example_db_rewritten 5 1 (-1)) = 1.
Proof.
  assert (Hrun : like_post 5 (example_vote 1 1) bob_token (example_db_voted (-1))
                 = (Return (example_response 1 0 1), example_db_rewritten 5 1 (-1)))
    by (vm_compute; reflexivity).
  split; [exact Hrun|].
  destruct (like_post_aggregate _ _ _ _ _ _ Hrun) as (H1 & H2 & H3).
  rewrite <- H1, <- H2, <- H3. repeat split.
Defined.

(** C10. Every response of a successful [like_post] satisfies
    total_likes + total_negative_votes <= total_interactions: a row is
    counted as a like or as a negative vote, never both, and rows with
    status 0 or below -1 count in the total only. *)
Theorem like_post_aggregate_bound now vote token_data db response db' :
  like_post now vote token_data db = (Return response, db') →
  total_likes response + total_negative_votes response
  ≤ total_interactions response.
Proof.
  intros ->%like_post_return. unfold vote_response.
  cbn [total_likes total_negative_votes total_interactions].
  rewrite <- Nat2Z.inj_add. apply Nat2Z.inj_le.
  apply length_filter_disjoint. intros r. lia.
Qed.

Lemma like_post_aggregate_bound_witness :
  like_post 5 (example_vote 0 1) bob_token (example_db_voted 1)
  = (Return (example_response 0 0 1), example_db_rewritten 5 0 1)
  ∧ total_likes (example_response 0 0 1)
    + total_negative_votes (example_response 0 0 1)
    ≤ total_interactions (example_response 0 0 1).
Proof.
  assert (Hrun : like_post 5 (example_vote 0 1) bob_token (example_db_voted 1)
                 = (Return (example_response 0 0 1), example_db_rewritten 5 0 1))
    by (vm_compute; reflexivity).
  split; [exact Hrun|].
  exact (like_post_aggregate_bound _ _ _ _ _ _ Hrun).
Defined.

(** C6. For every direction outside {-1, 0, 1}, [like_post] raises
    HTTP 401 "Forbidden, user can only like, dislike, or neutralize." and
    leaves the database as it was: no vote row is inserted or rewritten. *)
Theorem like_post_rejects_direction now vote token_data db :
  direction_of_vote vote ∉ [-1; 0; 1] →
  like_post now vote token_data db
  = (Raise (HTTPException 401
              "Forbidden, user can only like, dislike, or neutralize."), db).
Proof.
  intros Hd. apply like_post_invalid_direction.
  destruct (in_directions (direction_of_vote vote)) eqn:E; [|done].
  apply in_directions_cases in E. destruct Hd.
  rewrite !elem_of_cons. tauto.
Qed.

Lemma like_post_rejects_direction_witness :
  like_post 5 (example_vote 2 1) bob_token (example_db_voted 1)
  = (Raise (HTTPException 401
              "Forbidden, user can only like, dislike, or neutralize."),
     example_db_voted 1).
Proof.
  apply (like_post_rejects_direction 5 (example_vote 2 1) bob_token
           (example_db_voted 1)).
  cbn [direction_of_vote example_vote].
  rewrite !elem_of_cons, elem_of_nil. lia.
Defined.

(** [like_post] never answers 404: its check [user_post_like_status is
    None] cannot fire, since [read_table] returns a data frame or raises. *)
Lemma like_post_never_404 now vote token_data db detail db' :
  like_post now vote token_data db ≠ (Raise (HTTPException 404 detail), db').
Proof.
  destruct (like_post_cases now vote token_data db)
    as [(x & -> & Hx & _)|[(e & _ & _ & _ & _ & _ & ->)|(e & r & _ & _ & _ & ->)]].
  - intros [= -> _]. by destruct (Hx detail).
  - intros H.
    destruct (decide (posts_join_post_likes
                        (set_post_likes db
                           (<[(id_ vote, e) := new_row now 1]> (post_likes db))) = []))
      as [He|Hne].
    + by rewrite recount_empty in H.
    + by rewrite recount_run in H.
  - intros H.
    destruct (decide (posts_join_post_likes
                        (set_post_likes db
                           (alter (updated_row now
                                     (rewritten_status (direction_of_vote vote)
                                        (post_likes_current_status r)))
                                  (id_ vote, e) (post_likes db))) = []))
      as [He|Hne].
    + by rewrite recount_empty in H.
    + by rewrite recount_run in H.
Qed.

(** A vote on a post that is not in the store: under the foreign keys the
    voter has no row for it, the insert is attempted and the store rejects
    it. The database is unchanged, the outcome is the store's error. *)
Lemma like_post_missing_post now vote token_data db e :
  foreign_keys db →
  in_directions (direction_of_vote vote) = true →
  token_data !! "user_email" = Some (VStr e) →
  posts db !! id_ vote = None →
  like_post now vote token_data db
  = (Raise (DatabaseError "post_likes_post_id_fkey"), db).
Proof.
  intros Hfk Hd He Hp.
  assert (Hrow : post_likes db !! (id_ vote, e) = None).
  { destruct (post_likes db !! (id_ vote, e)) as [r|] eqn:Hr; [|done].
    destruct (Hfk _ _ Hr) as [[p Hp'] _]. cbn in Hp'. congruence. }
  run_like_post. rewrite Hd, He. cbn beta iota delta [negb].
  rewrite Hrow. cbn beta iota. by rewrite Hrow, Hp.
Qed.

(** C5 (the code departs from it). A vote on a post that is not in the
    store is not answered with HTTP 404: the insert is attempted, the store
    rejects it on the foreign key of [post_id], and that error is what the
    caller sees. No vote row is created or rewritten. *)
Theorem like_post_unknown_post now vote token_data db e :
  foreign_keys db →
  in_directions (direction_of_vote vote) = true →
  token_data !! "user_email" = Some (VStr e) →
  posts db !! id_ vote = None →
  like_post now vote token_data db
  = (Raise (DatabaseError "post_likes_post_id_fkey"), db)
  ∧ ∀ detail db',
      like_post now vote token_data db ≠ (Raise (HTTPException 404 detail), db').
Proof.
  intros Hfk Hd He Hp. split.
  - by apply (like_post_missing_post now vote token_data db e).
  - intros detail db'. apply like_post_never_404.
Qed.

Lemma like_post_unknown_post_witness :
  like_post 5 (example_vote 1 7) bob_token example_db
  = (Raise (DatabaseError "post_likes_post_id_fkey"), example_db).
Proof.
  apply (like_post_unknown_post 5 (example_vote 1 7) bob_token example_db
           "bob@example.com").
  - apply (bool_decide_unpack _). vm_compute. exact I.
  - reflexivity.
  - reflexivity.
  - reflexivity.
Defined.

(** C8 (amended). For every direction d >= 0, applying [like_post] twice
    in succession with d leaves the same status after the second
    application as after the first, provided the voter already has a row
    for the post or d is not 0. With a row and d in {0, 1} that status
    is d. *)
Theorem like_post_twice now1 now2 vote token_data db e :
  0 ≤ direction_of_vote vote →
  token_data !! "user_email" = Some (VStr e) →
  is_Some (status_of db (id_ vote) e) ∨ direction_of_vote vote ≠ 0 →
  let db1 := (like_post now1 vote token_data db).2 in
  let db2 := (like_post now2 vote token_data db1).2 in
  status_of db2 (id_ vote) e = status_of db1 (id_ vote) e
  ∧ (is_Some (status_of db (id_ vote) e) →
     in_directions (direction_of_vote vote) = true →
     status_of db1 (id_ vote) e = Some (direction_of_vote vote)).
Proof.
  intros Hpos He Hor db1 db2. unfold db2, db1.
  rewrite (like_post_status now2) by done.
  destruct (like_post_posts_users now1 vote token_data db) as [-> ->].
  rewrite (like_post_status now1) by done.
  destruct (in_directions (direction_of_vote vote)) eqn:Hd.
  2:{ split; [done|]. intros _ [=]. }
  apply in_directions_cases in Hd.
  assert (Hrw : ∀ x, rewritten_status (direction_of_vote vote) x
                     = direction_of_vote vote).
  { intros x. unfold rewritten_status.
    destruct (0 <=? direction_of_vote vote) eqn:E; [done|lia]. }
  destruct (status_of db (id_ vote) e) as [x|] eqn:Hs.
  - rewrite !Hrw. done.
  - split; [|by intros [? [=]]].
    destruct (decide (is_Some (posts db !! id_ vote) ∧ is_Some (users db !! e)));
      [|done].
    rewrite Hrw. f_equal. destruct Hor as [[? [=]]|Hn0]. lia.
Qed.

Lemma like_post_twice_witness :
  status_of (like_post 6 (example_vote 0 1) bob_token
               (like_post 5 (example_vote 0 1) bob_token (example_db_voted 1)).2).2
            1 "bob@example.com"
  = status_of (like_post 5 (example_vote 0 1) bob_token (example_db_voted 1)).2
              1 "bob@example.com"
  ∧ status_of (like_post 5 (example_vote 0 1) bob_token (example_db_voted 1)).2
              1 "bob@example.com" = Some 0.
Proof.
  destruct (like_post_twice 5 6 (example_vote 0 1) bob_token (example_db_voted 1)
              "bob@example.com") as [H1 H2].
  - cbn. lia.
  - reflexivity.
  - left. vm_compute. eauto.
  - split; [exact H1|]. apply H2; [vm_compute; eauto|reflexivity].
Defined.

(** C8 as stated fails for a first interaction with direction 0: the first
    application inserts status 1, the second rewrites it to 0. *)
Lemma like_post_twice_first_neutral :
  status_of (like_post 5 (example_vote 0 1) bob_token example_db).2
            1 "bob@example.com" = Some 1
  ∧ status_of (like_post 6 (example_vote 0 1) bob_token
                 (like_post 5 (example_vote 0 1) bob_token example_db).2).2
              1 "bob@example.com" = Some 0.
Proof. split; by vm_compute. Qed.

(** C9 (amended). Starting from a table whose statuses all lie in
    {-1, 0, 1} (no row at all included), every sequence of [like_post]
    requests keeps every stored status in {-1, 0, 1}, hence within
    {-2, -1, 0, 1}: the status never drifts below -1. A dislike over a
    row with status x leaves abs x - 1, so 1 goes to 0, 0 to -1 and -1
    back to 0; at status -2 it would leave 1, but -2 is never stored. *)
Theorem vote_status_invariant :
  (∀ requests db,
     statuses_valid db →
     statuses_valid (run_votes requests db)
     ∧ ∀ id e x, status_of (run_votes requests db) id e = Some x → -2 ≤ x ≤ 1)
  ∧ (∀ now vote token_data db e x,
       direction_of_vote vote = -1 →
       token_data !! "user_email" = Some (VStr e) →
       status_of db (id_ vote) e = Some x →
       status_of (like_post now vote token_data db).2 (id_ vote) e
       = Some (Z.abs x - 1)).
Proof.
  split.
  - intros requests db Hv.
    assert (Hall : statuses_valid (run_votes requests db)).
    { induction requests as [|q requests IH] using rev_ind; [done|].
      rewrite run_votes_snoc. by apply like_post_statuses_valid. }
    split; [done|].
    intros id e x. unfold status_of.
    destruct (post_likes (run_votes requests db) !! (id, e)) as [r|] eqn:Hr; [|done].
    intros [= <-]. pose proof (Hall _ _ Hr) as Hx. cbn in Hx.
    apply status_range in Hx. lia.
  - intros now vote token_data db e x Hd He Hs.
    rewrite like_post_status, Hs, Hd by done. reflexivity.
Qed.

Lemma vote_status_invariant_witness :
  statuses_valid
    (run_votes [(5, example_vote (-1) 1, bob_token); (6, example_vote (-1) 1, bob_token)]
               (example_db_voted 0))
  ∧ status_of (like_post 5 (example_vote (-1) 1) bob_token (example_db_voted (-1))).2
              1 "bob@example.com" = Some 0.
Proof.
  destruct vote_status_invariant as [Hinv Hdislike]. split.
  - apply (Hinv [(5, example_vote (-1) 1, bob_token); (6, example_vote (-1) 1, bob_token)]
             (example_db_voted 0)).
    apply (bool_decide_unpack _). vm_compute. exact I.
  - apply (Hdislike 5 (example_vote (-1) 1) bob_token (example_db_voted (-1))
             "bob@example.com" (-1)); reflexivity.
Defined.

(** C9 as stated fails at its cycle 0, -1, -2, 1: two dislikes from status
    0 leave status 0, not -2. *)
Lemma repeated_dislikes_alternate :
  status_of (run_votes [(5, example_vote (-1) 1, bob_token)] (example_db_voted 0))
            1 "bob@example.com" = Some (-1)
  ∧ status_of (run_votes [(5, example_vote (-1) 1, bob_token);
                          (6, example_vote (-1) 1, bob_token)] (example_db_voted 0))
              1 "bob@example.com" = Some 0
  ∧ status_of (run_votes [(5, example_vote (-1) 1, bob_token);
                          (6, example_vote (-1) 1, bob_token)] (example_db_voted 0))
              1 "bob@example.com" ≠ Some (-2).
Proof. repeat split; by vm_compute. Qed.

(* ===================================================================== *)
(** ** Properties of the ownership guard *)
(* ===================================================================== *)

(** C2. [verify_post_owner] raises HTTP 403 "... does not exist." when no
    post has the id; raises HTTP 403 "This is a development post, ..." for
    every caller when the post's email is NULL; raises HTTP 403 "The post
    is owned by ..." when the caller's email differs from the owner's; and
    returns exactly when the caller's email is the owner's. In every case
    the database is left as it was. *)
Theorem verify_post_owner_outcomes post_id current_user_email method db :
  (posts db !! post_id = None →
   verify_post_owner post_id current_user_email method db
   = (Raise (HTTPException 403
               ("The post you are trying to " +:+ method +:+ " does not exist.")),
      db))
  ∧ (∀ p, posts db !! post_id = Some p → posts_email p = None →
     verify_post_owner post_id current_user_email method db
     = (Raise (HTTPException 403
                 ("This is a development post, unauthorized users cannot "
                  +:+ method +:+ " it.")), db))
  ∧ (∀ p owner, posts db !! post_id = Some p → posts_email p = Some owner →
     current_user_email ≠ Some (VStr owner) →
     verify_post_owner post_id current_user_email method db
     = (Raise (HTTPException 403
                 ("The post is owned by " +:+ owner +:+ ", "
                  +:+ py_format current_user_email
                  +:+ " is not authorized to " +:+ method +:+ " it.")), db))
  ∧ (verify_post_owner post_id current_user_email method db = (Return (), db)
     ↔ ∃ p owner, posts db !! post_id = Some p ∧ posts_email p = Some owner
                  ∧ current_user_email = Some (VStr owner))
  ∧ (verify_post_owner post_id current_user_email method db).2 = db.
Proof.
  unfold verify_post_owner, read_table_post_owner, mbind, M_bind, mret, M_ret, raise.
  destruct (posts db !! post_id) as [p|] eqn:Hp.
  2:{ split; [done|]. split; [intros p [=]|]. split; [intros p owner [=]|].
      split; [|done]. split; [intros [=]|intros (p & owner & [=] & _)]. }
  destruct (posts_email p) as [owner|] eqn:Ho.
  2:{ split; [intros [=]|]. split; [done|].
      split; [intros p' owner [= <-]; congruence|].
      split; [|done].
      split; [intros [=]|intros (p' & owner & [= <-] & Ho' & _); congruence]. }
  assert (Heq : str_eq_value owner current_user_email = true
                ↔ current_user_email = Some (VStr owner)).
  { unfold str_eq_value. destruct current_user_email as [[s|z]|]; [|done..].
    rewrite String.eqb_eq. split; [by intros ->|by intros [= ->]]. }
  split; [intros [=]|]. split; [intros p' [= <-]; congruence|].
  destruct (str_eq_value owner current_user_email); cbn [negb].
  - assert (Hc : current_user_email = Some (VStr owner)) by (by apply Heq).
    split; [intros p' owner' [= <-] Ho'; congruence|].
    split; [|done]. split; [intros _; by exists p, owner|done].
  - assert (Hne : current_user_email ≠ Some (VStr owner)).
    { intros Hc. apply Heq in Hc. discriminate. }
    split; [intros p' owner' [= <-] Ho' _; congruence|].
    split; [|done].
    split; [intros [=]|intros (p' & owner' & [= <-] & Ho' & Hc); congruence].
Qed.

Lemma verify_post_owner_outcomes_witness :
  verify_post_owner 3 (Some (VStr "ann@example.com")) "delete" example_db
  = (Raise (HTTPException 403 "The post you are trying to delete does not exist."),
     example_db)
  ∧ verify_post_owner 2 (Some (VStr "ann@example.com")) "update" example_db
    = (Raise (HTTPException 403
                "This is a development post, unauthorized users cannot update it."),
       example_db)
  ∧ verify_post_owner 1 (Some (VStr "bob@example.com")) "delete" example_db
    = (Raise (HTTPException 403
                "The post is owned by ann@example.com, bob@example.com is not authorized to delete it."),
       example_db)
  ∧ verify_post_owner 1 (Some (VStr "ann@example.com")) "delete" example_db
    = (Return (), example_db).
Proof.
  split; [|split; [|split]].
  - destruct (verify_post_owner_outcomes 3 (Some (VStr "ann@example.com")) "delete"
                example_db) as (H & _).
    apply H. reflexivity.
  - destruct (verify_post_owner_outcomes 2 (Some (VStr "ann@example.com")) "update"
                example_db) as (_ & H & _).
    apply (H (example_post None)); reflexivity.
  - destruct (verify_post_owner_outcomes 1 (Some (VStr "bob@example.com")) "delete"
                example_db) as (_ & _ & H & _).
    apply (H (example_post (Some "ann@example.com")) "ann@example.com");
      [reflexivity|reflexivity|discriminate].
  - destruct (verify_post_owner_outcomes 1 (Some (VStr "ann@example.com")) "delete"
                example_db) as (_ & _ & _ & H & _).
    apply H.
    exists (example_post (Some "ann@example.com")), "ann@example.com".
    repeat split.
Defined.

(* ===================================================================== *)
(** ** Properties of the token service *)
(* ===================================================================== *)




(** The restriction to claims without registered claims is needed: a
    token issued for claims with an audience is refused by [jwt.decode],
    which was given no audience, with HTTP 401 "Invalid token", although
    it has not expired. *)
Lemma create_access_token_with_aud_refused :
  decode_access_token example_sign example_settings 10
    (Some ("Bearer " +:+ create_access_token example_sign example_settings 0
                          {["aud" := VStr "readers"]}))
  = Raise (HTTPException 401 "Invalid token").
Proof. vm_compute. reflexivity. Qed.

(** C7 (the code departs from it). A header without a space, such as
    "Bearer" alone or a token sent without the "Bearer " prefix, is not
    answered with one of the three 401 errors: taking the second word of
    the header raises [IndexError], which is no [HTTPException]. *)
Theorem decode_access_token_one_word
    (sign : string → string → string → string) (settings : Settings) (now : Z)
    (h : string) :
  has_char " "%char h = false →
  decode_access_token sign settings now (Some h) = Raise IndexError
  ∧ ∀ status_code detail,
      decode_access_token sign settings now (Some h)
      ≠ Raise (HTTPException status_code detail).
Proof.
  intros Hh. rewrite decode_access_token_no_space by done.
  split; [done|]. intros status_code detail. discriminate.
Qed.

Lemma decode_access_token_one_word_witness :
  decode_access_token example_sign example_settings 0 (Some "Bearer")
  = Raise IndexError.
Proof.
  apply (decode_access_token_one_word example_sign example_settings 0 "Bearer").
  reflexivity.
Defined.

(* ===================================================================== *)
(** ** Deleting posts *)
(* ===================================================================== *)

Lemma DropPost_found post_id db p :
  posts db !! post_id = Some p →
  DropPost post_id db
  = (Return "Post is successfully deleted.",
     {| posts := delete post_id (posts db);
        users := users db;
        post_likes :=
          filter (λ kr : Z * string * LikeRow, kr.1.1 ≠ post_id) (post_likes db) |}).
Proof. intros Hp. unfold DropPost. by rewrite Hp. Qed.

Lemma DropPost_missing post_id db :
  posts db !! post_id = None →
  DropPost post_id db
  = (Return "Post was already deleted or does not exist.", db).
Proof. intros Hp. unfold DropPost. by rewrite Hp. Qed.

Lemma verify_post_owner_run post_id current_user_email method db :
  (∃ p e, posts db !! post_id = Some p ∧ posts_email p = Some e
          ∧ current_user_email = Some (VStr e)
          ∧ verify_post_owner post_id current_user_email method db = (Return (), db))
  ∨ ((∀ p e, posts db !! post_id = Some p → posts_email p = Some e →
             current_user_email ≠ Some (VStr e))
     ∧ ∃ detail, verify_post_owner post_id current_user_email method db
                 = (Raise (HTTPException 403 detail), db)).
Proof.
  unfold verify_post_owner, read_table_post_owner, mbind, M_bind, mret, M_ret, raise.
  destruct (posts db !! post_id) as [p|] eqn:Hp.
  2:{ right. split; [intros p e [=]|by eexists]. }
  destruct (posts_email p) as [owner|] eqn:Ho.
  2:{ right. split; [intros p' e [= <-]; congruence|by eexists]. }
  destruct current_user_email as [[s|z]|]; cbn [str_eq_value negb].
  - destruct (String.eqb_spec owner s) as [<-|Hne]; cbn [negb].
    + left. by exists p, owner.
    + right. split; [|by eexists].
      intros p' e [= <-] He. congruence.
  - right. split; [|by eexists]. intros p' e _ _. discriminate.
  - right. split; [|by eexists]. intros p' e _ _. discriminate.
Qed.

(** X1. When the caller's token carries the email that owns the post,
    [delete_post] answers 'Post is successfully deleted.', removes the
    post and every vote row of that post, and leaves the users, the other
    posts and the votes of other posts as they were. *)
Theorem delete_post_by_owner id token_data db p e :
  posts db !! id = Some p →
  posts_email p = Some e →
  token_data !! "user_email" = Some (VStr e) →
  ∃ db',
    delete_post id token_data db = (Return "Post is successfully deleted.", db')
    ∧ posts db' = delete id (posts db)
    ∧ users db' = users db
    ∧ ∀ id' voter,
        post_likes db' !! (id', voter)
        = if decide (id' = id) then None else post_likes db !! (id', voter).
Proof.
  intros Hp Ho He. eexists. split.
  - unfold delete_post, mbind, M_bind, mret, M_ret.
    destruct (verify_post_owner_run id (token_data !! "user_email") "delete" db)
      as [(p' & e' & _ & _ & _ & ->)|[Hno _]].
    + by rewrite (DropPost_found id db p).
    + by destruct (Hno p e).
  - cbn. repeat split. intros id' voter.
    rewrite map_lookup_filter.
    destruct (post_likes db !! (id', voter)) as [r|]; cbn;
      destruct (decide (id' = id)) as [->|Hne]; try done.
    + by rewrite option_guard_False by (cbn; tauto).
    + by rewrite option_guard_True.
Qed.

Lemma delete_post_by_owner_witness :
  ∃ db',
    delete_post 1 {["user_email" := VStr "ann@example.com"]} (example_db_voted 1)
    = (Return "Post is successfully deleted.", db')
    ∧ posts db' !! 1 = None
    ∧ post_likes db' !! (1, "bob@example.com") = None.
Proof.
  destruct (delete_post_by_owner 1 {["user_email" := VStr "ann@example.com"]}
              (example_db_voted 1) (example_post (Some "ann@example.com"))
              "ann@example.com")
    as (db' & Hrun & Hposts & _ & Hlikes); [reflexivity..|].
  exists db'. split; [exact Hrun|]. split.
  - rewrite Hposts. apply lookup_delete_eq.
  - rewrite Hlikes. reflexivity.
Defined.

(** X2. [delete_post] reaches the store only for the owner: unless the
    caller's email is the non-null owner email of an existing post, it
    raises HTTP 403 and the database is left as it was. *)
Theorem delete_post_guard id token_data db :
  (∃ p e, posts db !! id = Some p ∧ posts_email p = Some e
          ∧ token_data !! "user_email" = Some (VStr e))
  ∨ ∃ detail, delete_post id token_data db = (Raise (HTTPException 403 detail), db).
Proof.
  destruct (verify_post_owner_run id (token_data !! "user_email") "delete" db)
    as [(p & e & Hp & Ho & He & _)|[_ [detail Hv]]].
  - left. by exists p, e.
  - right. exists detail.
    unfold delete_post, mbind, M_bind. by rewrite Hv.
Qed.

(** X3. [DropPost] keeps the foreign keys of [post_likes]: after it no
    vote row refers to the deleted id, and if every vote row referred to
    an existing post and user before, it does so after. *)
Theorem DropPost_foreign_keys post_id db :
  is_Some (posts db !! post_id) ∨ foreign_keys db →
  (∀ voter, post_likes (DropPost post_id db).2 !! (post_id, voter) = None)
  ∧ (foreign_keys db → foreign_keys (DropPost post_id db).2).
Proof.
  intros Hor. destruct (posts db !! post_id) as [p|] eqn:Hp.
  - rewrite (DropPost_found post_id db p) by done. cbn [snd]. split.
    + intros voter. cbn. rewrite map_lookup_filter_None. right.
      intros r _. cbn. tauto.
    + intros Hfk [id e] r. cbn.
      intros [Hr Hne]%map_lookup_filter_Some. cbn in Hne.
      destruct (Hfk _ _ Hr) as [Hpost Huser]. split; [|done].
      cbn. by rewrite lookup_delete_ne.
  - rewrite DropPost_missing by done. cbn [snd].
    destruct Hor as [[? [=]]|Hfk]. split; [|done].
    intros voter. destruct (post_likes db !! (post_id, voter)) as [r|] eqn:Hr; [|done].
    destruct (Hfk _ _ Hr) as [[p' Hp'] _]. cbn in Hp'. congruence.
Qed.

Lemma DropPost_foreign_keys_witness :
  post_likes (DropPost 1 (example_db_voted 1)).2 !! (1, "bob@example.com") = None
  ∧ foreign_keys (DropPost 1 (example_db_voted 1)).2.
Proof.
  destruct (DropPost_foreign_keys 1 (example_db_voted 1)) as [Hgone Hfk].
  - left. vm_compute. eauto.
  - split; [apply Hgone|]. apply Hfk.
    apply (bool_decide_unpack _). vm_compute. exact I.
Defined.

(** X4. [DropPost] twice is [DropPost] once: the second call finds nothing,
    reports 'Post was already deleted or does not exist.' and changes
    nothing. *)
Theorem DropPost_twice post_id db :
  DropPost post_id (DropPost post_id db).2
  = (Return "Post was already deleted or does not exist.", (DropPost post_id db).2).
Proof.
  apply DropPost_missing.
  destruct (posts db !! post_id) as [p|] eqn:Hp.
  - rewrite (DropPost_found post_id db p) by done. cbn. apply lookup_delete_eq.
  - by rewrite DropPost_missing.
Qed.

(** X5. After an existing post was deleted, it cannot be acted on: every
    [verify_post_owner] on its id raises 403 '... does not exist.', and
    every [like_post] on it with a valid direction and a voter email is
    rejected by the store on the foreign key of [post_id], leaving the
    database as the deletion left it. *)
Theorem deleted_post_is_gone post_id db :
  is_Some (posts db !! post_id) →
  let db' := (DropPost post_id db).2 in
  (∀ caller method,
     verify_post_owner post_id caller method db'
     = (Raise (HTTPException 403
                 ("The post you are trying to " +:+ method +:+ " does not exist.")),
        db'))
  ∧ (∀ now vote token_data e,
       id_ vote = post_id →
       in_directions (direction_of_vote vote) = true →
       token_data !! "user_email" = Some (VStr e) →
       like_post now vote token_data db'
       = (Raise (DatabaseError "post_likes_post_id_fkey"), db')).
Proof.
  intros [p Hp] db'.
  assert (Hgone : ∀ voter, post_likes db' !! (post_id, voter) = None).
  { apply DropPost_foreign_keys. left. by eexists. }
  assert (Hpost : posts db' !! post_id = None).
  { unfold db'. rewrite (DropPost_found post_id db p) by done.
    cbn. apply lookup_delete_eq. }
  clearbody db'. split.
  - intros caller method.
    unfold verify_post_owner, read_table_post_owner, mbind, M_bind, raise.
    by rewrite Hpost.
  - intros now vote token_data e Hid Hd He. subst post_id.
    run_like_post. rewrite Hd, He. cbn beta iota delta [negb].
    rewrite (Hgone e). cbn beta iota.
    by rewrite (Hgone e), Hpost.
Qed.

Lemma deleted_post_is_gone_witness :
  like_post 5 (example_vote 1 1) bob_token (DropPost 1 (example_db_voted 1)).2
  = (Raise (DatabaseError "post_likes_post_id_fkey"),
     (DropPost 1 (example_db_voted 1)).2).
Proof.
  destruct (deleted_post_is_gone 1 (example_db_voted 1)) as [_ Hlike].
  - vm_compute. eauto.
  - apply (Hlike 5 (example_vote 1 1) bob_token "bob@example.com"); reflexivity.
Defined.

(* ===================================================================== *)
(** ** How a vote moves the counts and the stamps *)
(* ===================================================================== *)

Lemma size_filter_insert_fresh {K A} `{Countable K}
    (Q : K * A → Prop) `{∀ x, Decision (Q x)} (m : gmap K A) (k : K) (x : A) :
  m !! k = None →
  size (filter Q (<[k:=x]> m))
  = (size (filter Q m) + if decide (Q (k, x)) then 1 else 0)%nat.
Proof.
  intros Hk. rewrite map_filter_insert.
  destruct (decide (Q (k, x))).
  - rewrite map_size_insert_None; [lia|].
    apply map_lookup_filter_None. by left.
  - rewrite delete_id by done. lia.
Qed.

Lemma size_filter_present {K A} `{Countable K}
    (Q : K * A → Prop) `{∀ x, Decision (Q x)} (m : gmap K A) (k : K) (x : A) :
  m !! k = Some x →
  size (filter Q m)
  = (size (filter Q (delete k m)) + if decide (Q (k, x)) then 1 else 0)%nat.
Proof.
  intros Hk. rewrite <- (insert_delete_id m k x) at 1 by done.
  apply size_filter_insert_fresh, lookup_delete_eq.
Qed.

(** Writing row [r] under key [k] of an existing post moves each count by
    what [r] adds and what the row before it, if any, added. *)
Lemma count_votes_insert (P : Z → Prop) `{∀ z, Decision (P z)}
    (db : Database) (k : Z * string) (r : LikeRow) :
  is_Some (posts db !! k.1) →
  count_votes P (set_post_likes db (<[k:=r]> (post_likes db)))
  + match post_likes db !! k with
    | Some r0 => if decide (P (post_likes_current_status r0)) then 1 else 0
    | None => 0
    end
  = count_votes P db
    + if decide (P (post_likes_current_status r)) then 1 else 0.
Proof.
  intros Hp. unfold count_votes. cbn [posts post_likes set_post_likes].
  assert (Hdec : ∀ r', (if decide (P (post_likes_current_status (k, r').2)
                                   ∧ is_Some (posts db !! (k, r').1.1))
                        then 1 else 0)%nat
                       = (if decide (P (post_likes_current_status r')) then 1 else 0)%nat).
  { intros r'. cbn [fst snd].
    destruct (decide (P (post_likes_current_status r'))) as [HP|HP].
    - by rewrite decide_True.
    - rewrite decide_False; [done|tauto]. }
  destruct (post_likes db !! k) as [r0|] eqn:Hk.
  - rewrite (size_filter_present _ (post_likes db) k r0) by done.
    rewrite <- insert_delete_eq.
    rewrite size_filter_insert_fresh by apply lookup_delete_eq.
    rewrite !Hdec.
    destruct (decide (P (post_likes_current_status r))),
             (decide (P (post_likes_current_status r0))); lia.
  - rewrite size_filter_insert_fresh by done.
    rewrite Hdec.
    destruct (decide (P (post_likes_current_status r))); lia.
Qed.

Lemma alter_present {K A} `{Countable K} (f : A → A) (m : gmap K A) (k : K) (x : A) :
  m !! k = Some x → alter f k m = <[k := f x]> m.
Proof.
  intros Hk. apply map_eq. intros j.
  destruct (decide (k = j)) as [<-|Hne].
  - by rewrite lookup_alter_eq, lookup_insert_eq, Hk.
  - by rewrite lookup_alter_ne, lookup_insert_ne.
Qed.

Lemma vote_response_counts (db : Database) :
  total_likes (vote_response db) = count_votes (λ z, 0 < z) db
  ∧ total_negative_votes (vote_response db) = count_votes (λ z, z = -1) db
  ∧ total_interactions (vote_response db) = count_votes (λ _, True) db.
Proof.
  unfold vote_response.
  cbn [total_likes total_negative_votes total_interactions].
  split; [exact (@count_votes_joined (λ z, 0 < z) (λ z, decide (0 < z)) db)|].
  split; [exact (@count_votes_joined (λ z, z = -1) (λ z, decide (z = -1)) db)|].
  etrans; [|exact (@count_votes_joined (λ _, True) (λ _, decide True) db)].
  do 2 f_equal.
  induction (posts_join_post_likes db) as [|r rows IH]; [done|].
  rewrite filter_cons_True by done. by f_equal.
Qed.

(** X6. A first vote on an existing post by a registered voter, whatever
    its direction, answers with one more like and one more interaction
    than the table held before, and the same number of negative votes. *)
Theorem like_post_first_vote_counts now vote token_data db e :
  in_directions (direction_of_vote vote) = true →
  token_data !! "user_email" = Some (VStr e) →
  post_likes db !! (id_ vote, e) = None →
  is_Some (posts db !! id_ vote) →
  is_Some (users db !! e) →
  ∃ response db',
    like_post now vote token_data db = (Return response, db')
    ∧ total_likes response = count_votes (λ z, 0 < z) db + 1
    ∧ total_negative_votes response = count_votes (λ z, z = -1) db
    ∧ total_interactions response = count_votes (λ _, True) db + 1.
Proof.
  intros Hd He Hrow Hp Hu.
  eexists _, _. split; [by apply (like_post_first_vote now vote token_data db e)|].
  destruct (vote_response_counts
              (set_post_likes db (<[(id_ vote, e) := new_row now 1]> (post_likes db))))
    as (-> & -> & ->).
  pose proof (count_votes_insert (λ z, 0 < z) db (id_ vote, e) (new_row now 1) Hp) as H1.
  pose proof (count_votes_insert (λ z, z = -1) db (id_ vote, e) (new_row now 1) Hp) as H2.
  pose proof (count_votes_insert (λ _, True) db (id_ vote, e) (new_row now 1) Hp) as H3.
  rewrite Hrow in H1, H2, H3.
  cbn [post_likes_current_status new_row] in H1, H2, H3.
  destruct (decide (0 < 1)); [|lia].
  destruct (decide (1 = -1)); [lia|].
  destruct (decide True); [|tauto]. lia.
Qed.

Lemma like_post_first_vote_counts_witness :
  ∃ response db',
    like_post 5 (example_vote (-1) 2) bob_token (example_db_voted 0)
    = (Return response, db')
    ∧ total_likes response = 1
    ∧ total_negative_votes response = 0
    ∧ total_interactions response = 2.
Proof.
  destruct (like_post_first_vote_counts 5 (example_vote (-1) 2) bob_token
              (example_db_voted 0) "bob@example.com")
    as (response & db' & Hrun & H1 & H2 & H3).
  - reflexivity.
  - reflexivity.
  - by vm_compute.
  - vm_compute. eauto.
  - vm_compute. eauto.
  - exists response, db'. split; [exact Hrun|].
    assert (C1 : count_votes (λ z, 0 < z) (example_db_voted 0) = 0) by (by vm_compute).
    assert (C2 : count_votes (λ z, z = -1) (example_db_voted 0) = 0) by (by vm_compute).
    assert (C3 : count_votes (λ _, True) (example_db_voted 0) = 1) by (by vm_compute).
    rewrite C1 in H1. rewrite C2 in H2. rewrite C3 in H3.
    clear Hrun. lia.
Defined.

(** X7. A later vote on an existing post moves a voter between the
    counts and adds nobody: with x the status before and y the status
    written, likes change by [y > 0] minus [x > 0], negative votes by
    [y = -1] minus [x = -1], and the interactions stay as they were. *)
Theorem like_post_later_vote_counts now vote token_data db e r :
  in_directions (direction_of_vote vote) = true →
  token_data !! "user_email" = Some (VStr e) →
  post_likes db !! (id_ vote, e) = Some r →
  is_Some (posts db !! id_ vote) →
  let x := post_likes_current_status r in
  let y := rewritten_status (direction_of_vote vote) x in
  ∃ response db',
    like_post now vote token_data db = (Return response, db')
    ∧ total_likes response + (if decide (0 < x) then 1 else 0)
      = count_votes (λ z, 0 < z) db + (if decide (0 < y) then 1 else 0)
    ∧ total_negative_votes response + (if decide (x = -1) then 1 else 0)
      = count_votes (λ z, z = -1) db + (if decide (y = -1) then 1 else 0)
    ∧ total_interactions response = count_votes (λ _, True) db.
Proof.
  intros Hd He Hrow Hp x y.
  eexists _, _. split; [by apply (like_post_later_vote now vote token_data db e r)|].
  rewrite (alter_present _ _ _ r) by done. fold x y.
  destruct (vote_response_counts
              (set_post_likes db
                 (<[(id_ vote, e) := updated_row now y r]> (post_likes db))))
    as (-> & -> & ->).
  pose proof (count_votes_insert (λ z, 0 < z) db (id_ vote, e)
                (updated_row now y r) Hp) as H1.
  pose proof (count_votes_insert (λ z, z = -1) db (id_ vote, e)
                (updated_row now y r) Hp) as H2.
  pose proof (count_votes_insert (λ _, True) db (id_ vote, e)
                (updated_row now y r) Hp) as H3.
  rewrite Hrow in H1, H2, H3.
  cbn [post_likes_current_status updated_row] in H1, H2, H3. fold x in H1, H2.
  destruct (decide True); [|tauto].
  repeat split; [exact H1|exact H2|lia].
Qed.

Lemma like_post_later_vote_counts_witness :
  ∃ response db',
    like_post 5 (example_vote (-1) 1) bob_token (example_db_voted 1)
    = (Return response, db')
    ∧ total_likes response = 0
    ∧ total_negative_votes response = 0
    ∧ total_interactions response = 1.
Proof.
  destruct (like_post_later_vote_counts 5 (example_vote (-1) 1) bob_token
              (example_db_voted 1) "bob@example.com" (example_like 1))
    as (response & db' & Hrun & H1 & H2 & H3).
  - reflexivity.
  - reflexivity.
  - by vm_compute.
  - vm_compute. eauto.
  - exists response, db'. split; [exact Hrun|].
    assert (C1 : count_votes (λ z, 0 < z) (example_db_voted 1) = 1) by (by vm_compute).
    assert (C2 : count_votes (λ z, z = -1) (example_db_voted 1) = 0) by (by vm_compute).
    assert (C3 : count_votes (λ _, True) (example_db_voted 1) = 1) by (by vm_compute).
    rewrite C1 in H1. rewrite C2 in H2. rewrite C3 in H3.
    clear Hrun. change (total_likes response + 1 = 1 + 0) in H1.
    change (total_negative_votes response + 0 = 0 + 0) in H2. lia.
Defined.

(** X8. Votes never delete a vote row and never change its [created_at]:
    after any sequence of [like_post] requests, with whatever outcomes,
    every row that was in [post_likes] is still there with the creation
    stamp it had. *)
Theorem run_votes_rows_persist requests db k r :
  post_likes db !! k = Some r →
  ∃ r', post_likes (run_votes requests db) !! k = Some r'
        ∧ post_likes_created_at r' = post_likes_created_at r.
Proof.
  intros Hr. induction requests as [|q requests IH] using rev_ind.
  - by exists r.
  - destruct IH as (r1 & Hr1 & Hc). rewrite run_votes_snoc.
    destruct (like_post_database q.1.1 q.1.2 q.2 (run_votes requests db))
      as [->|[(e & _ & _ & Hnone & ->)|(e & r0 & _ & _ & Hsome & ->)]].
    + by exists r1.
    + exists r1. split; [|done]. cbn.
      rewrite lookup_insert_ne; [done|]. intros <-. congruence.
    + cbn. destruct (decide ((id_ q.1.2, e) = k)) as [<-|Hne].
      * rewrite lookup_alter_eq, Hr1. cbn. eexists. split; [done|]. done.
      * exists r1. by rewrite lookup_alter_ne.
Qed.

Lemma run_votes_rows_persist_witness :
  ∃ r', post_likes
          (run_votes [(5, example_vote (-1) 1, bob_token);
                      (6, example_vote 2 1, bob_token);
                      (7, example_vote 1 1, bob_token)] (example_db_voted 0))
          !! (1, "bob@example.com") = Some r'
        ∧ post_likes_created_at r' = 0.
Proof.
  apply (run_votes_rows_persist _ (example_db_voted 0) (1, "bob@example.com")
           (example_like 0)).
  by vm_compute.
Defined.

(** X9. The row a successful vote leaves: a first vote writes status 1 with
    [created_at] and [updated_at] both at the store's time; a later vote
    keeps [created_at], sets [updated_at] to the store's time and writes
    the direction, or abs of the old status minus 1 for a dislike. *)
Theorem like_post_row now vote token_data db e :
  in_directions (direction_of_vote vote) = true →
  token_data !! "user_email" = Some (VStr e) →
  is_Some (posts db !! id_ vote) →
  is_Some (users db !! e) →
  post_likes (like_post now vote token_data db).2 !! (id_ vote, e)
  = Some match post_likes db !! (id_ vote, e) with
         | None =>
             {| post_likes_created_at := now;
                post_likes_updated_at := now;
                post_likes_current_status := 1 |}
         | Some r =>
             {| post_likes_created_at := post_likes_created_at r;
                post_likes_updated_at := now;
                post_likes_current_status :=
                  if 0 <=? direction_of_vote vote then direction_of_vote vote
                  else Z.abs (post_likes_current_status r) - 1 |}
         end.
Proof.
  intros Hd He Hp Hu.
  destruct (post_likes db !! (id_ vote, e)) as [r|] eqn:Hrow.
  - rewrite (like_post_later_vote now vote token_data db e r) by done.
    cbn. rewrite lookup_alter_eq, Hrow. cbn. unfold updated_row, rewritten_status.
    apply in_directions_cases in Hd.
    destruct (0 <=? direction_of_vote vote) eqn:E; [done|].
    do 2 f_equal. lia.
  - rewrite (like_post_first_vote now vote token_data db e) by done.
    cbn. by rewrite lookup_insert_eq.
Qed.

Lemma like_post_row_witness :
  post_likes (like_post 9 (example_vote (-1) 1) bob_token (example_db_voted 1)).2
    !! (1, "bob@example.com")
  = Some {| post_likes_created_at := 0; post_likes_updated_at := 9;
            post_likes_current_status := 0 |}.
Proof.
  etrans.
  - apply (like_post_row 9 (example_vote (-1) 1) bob_token (example_db_voted 1)
             "bob@example.com").
    + reflexivity.
    + reflexivity.
    + vm_compute. eauto.
    + vm_compute. eauto.
  - by vm_compute.
Defined.

(** X10. Votes touch [post_likes] only and keep its foreign keys: after
    any sequence of [like_post] requests the posts and the users are the
    ones before, and if every vote row referred to an existing post and
    user before, every vote row does after. *)
Theorem run_votes_foreign_keys requests db :
  posts (run_votes requests db) = posts db
  ∧ users (run_votes requests db) = users db
  ∧ (foreign_keys db → foreign_keys (run_votes requests db)).
Proof.
  induction requests as [|q requests IH] using rev_ind; [done|].
  destruct IH as (IHp & IHu & IHfk). rewrite run_votes_snoc.
  destruct (like_post_posts_users q.1.1 q.1.2 q.2 (run_votes requests db))
    as [Hp Hu].
  split; [by rewrite Hp|]. split; [by rewrite Hu|].
  intros Hfk. by apply like_post_foreign_keys, IHfk.
Qed.

Lemma run_votes_foreign_keys_witness :
  foreign_keys
    (run_votes [(5, example_vote 1 2, bob_token); (6, example_vote 0 7, bob_token)]
               (example_db_voted 0)).
Proof.
  apply (run_votes_foreign_keys
           [(5, example_vote 1 2, bob_token); (6, example_vote 0 7, bob_token)]
           (example_db_voted 0)).
  apply (bool_decide_unpack _). vm_compute. exact I.
Defined.

(** X11. [VoteManager] with method 'update_vote' for a pair that has no
    vote row changes nothing and still returns 'Vote updated
    successfully.': the UPDATE matches no row and that is not reported. *)
Theorem VoteManager_update_missing_row now data e current_status db :
  data_email data = Some (VStr e) →
  post_likes db !! (data_post_id data, e) = None →
  VoteManager now data "update_vote" current_status db
  = (Return "Vote updated successfully.", db).
Proof.
  intros He Hrow.
  unfold VoteManager, execute_update_vote, mbind, M_bind, mret, M_ret.
  cbn [String.eqb Ascii.eqb Bool.eqb]. rewrite He.
  assert (Hsame : alter (λ r, {| post_likes_created_at := post_likes_created_at r;
                                 post_likes_updated_at := now;
                                 post_likes_current_status := current_status |})
                        (data_post_id data, e) (post_likes db)
                  = post_likes db).
  { apply map_eq. intros k. destruct (decide ((data_post_id data, e) = k)) as [<-|Hne].
    - by rewrite lookup_alter_eq, Hrow.
    - by rewrite lookup_alter_ne. }
  rewrite Hsame. by destruct db.
Qed.

Lemma VoteManager_update_missing_row_witness :
  VoteManager 5 {| data_post_id := 2; data_email := Some (VStr "bob@example.com") |}
    "update_vote" (-1) (example_db_voted 1)
  = (Return "Vote updated successfully.", example_db_voted 1).
Proof.
  apply (VoteManager_update_missing_row 5
           {| data_post_id := 2; data_email := Some (VStr "bob@example.com") |}
           "bob@example.com" (-1) (example_db_voted 1)).
  - reflexivity.
  - by vm_compute.
Defined.

(* ===================================================================== *)
(** ** What [decode_access_token] reads from the header *)
(* ===================================================================== *)

(** X12. Only the second space-separated word of the header is read: the
    scheme word is not compared with "Bearer", and anything after a
    second space is ignored. *)
Theorem decode_access_token_second_word
    (sign : string → string → string → string) (settings : Settings) (now : Z)
    (scheme token rest : string) :
  has_char " "%char scheme = false →
  has_char " "%char token = false →
  decode_access_token sign settings now (Some (scheme +:+ " " +:+ token))
  = decode_access_token sign settings now (Some ("Bearer " +:+ token))
  ∧ decode_access_token sign settings now
      (Some (scheme +:+ " " +:+ token +:+ " " +:+ rest))
    = decode_access_token sign settings now (Some ("Bearer " +:+ token)).
Proof.
  intros Hs Ht. unfold decode_access_token.
  rewrite (bearer_token token) by done.
  assert (Hc : ∀ x, " " +:+ x = String " "%char x) by reflexivity.
  rewrite !Hc. split.
  - rewrite split_app by done. by rewrite (split_no_sep _ token).
  - rewrite (split_app _ scheme) by done.
    by rewrite (split_app _ token) by done.
Qed.

Lemma decode_access_token_second_word_witness :
  decode_access_token example_sign example_settings 10
    (Some ("Basic " +:+ create_access_token example_sign example_settings 0 bob_token))
  = Return (<["exp" := VInt 1800]> bob_token).
Proof.
  destruct (decode_access_token_second_word example_sign example_settings 10
              "Basic" (create_access_token example_sign example_settings 0 bob_token)
              "") as [H _].
  - reflexivity.
  - apply has_char_space_jwt_encode.
  - etrans; [exact H|]. vm_compute. reflexivity.
Defined.

(* ===================================================================== *)
(** ** Login, and the handlers behind the token *)
(* ===================================================================== *)

Lemma login_run (sign : string → string → string → string) (settings : Settings)
    (now : Z) (login_payload : Login.t) (db : Database) :
  login sign settings now login_payload db
  = (Return
       match users db !! Login.email login_payload with
       | Some u =>
           if String.eqb (users_password u) (Login.password login_payload) then
             TokenResponse
               (create_access_token sign settings now
                  {["user_email" := VStr (Login.email login_payload)]})
               "bearer"
           else MessageResponse "Authentication Failed, Credentials Do Not Match"
       | None => MessageResponse "Authentication Failed, Credentials Do Not Match"
       end, db).
Proof.
  unfold login, read_table_user_password, mbind, M_bind, mret, M_ret.
  destruct (users db !! Login.email login_payload) as [u|]; [|done].
  by destruct (String.eqb (users_password u) (Login.password login_payload)).
Qed.

Lemma delete_post_owner id token_data db p e :
  posts db !! id = Some p → posts_email p = Some e →
  token_data !! "user_email" = Some (VStr e) →
  delete_post id token_data db = DropPost id db.
Proof.
  intros Hp Ho He. unfold delete_post, mbind, M_bind, mret, M_ret.
  destruct (verify_post_owner_run id (token_data !! "user_email") "delete" db)
    as [(p' & e' & _ & _ & _ & ->)|[Hno _]].
  - by destruct (DropPost id db) as [[m|x] db'].
  - by destruct (Hno p e).
Qed.

(** X15. [login] never raises and never changes the database. It returns
    the token dictionary, with a token issued for the email and type
    "bearer", exactly when the email is a user's and the password equals
    the stored one; otherwise it returns the message "Authentication
    Failed, Credentials Do Not Match" as an ordinary result. *)
Theorem login_outcomes (sign : string → string → string → string)
    (settings : Settings) (now : Z) (login_payload : Login.t) (db : Database) :
  (∃ response, login sign settings now login_payload db = (Return response, db))
  ∧ (login sign settings now login_payload db
     = (Return (TokenResponse
                  (create_access_token sign settings now
                     {["user_email" := VStr (Login.email login_payload)]})
                  "bearer"), db)
     ↔ ∃ u, users db !! Login.email login_payload = Some u
            ∧ users_password u = Login.password login_payload)
  ∧ (login sign settings now login_payload db
     = (Return (MessageResponse "Authentication Failed, Credentials Do Not Match"), db)
     ↔ ∀ u, users db !! Login.email login_payload = Some u →
            users_password u ≠ Login.password login_payload).
Proof.
  rewrite login_run. split; [by eexists|].
  destruct (users db !! Login.email login_payload) as [u|].
  - destruct (String.eqb_spec (users_password u) (Login.password login_payload))
      as [Heq|Hne].
    + split; split.
      * intros _. by exists u.
      * done.
      * discriminate.
      * intros H. by destruct (H u).
    + split; split.
      * discriminate.
      * intros (u' & [= <-] & Hpw). done.
      * intros _ u' [= <-]. done.
      * done.
  - split; split.
    + discriminate.
    + intros (u & [=] & _).
    + intros _ u [=].
    + done.
Qed.

Lemma login_outcomes_witness :
  login example_sign example_settings 0
    {| Login.email := "bob@example.com"; Login.password := "Password1!" |} example_db
  = (Return (TokenResponse
               (create_access_token example_sign example_settings 0 bob_token)
               "bearer"), example_db)
  ∧ login example_sign example_settings 0
      {| Login.email := "bob@example.com"; Login.password := "password1!" |} example_db
    = (Return (MessageResponse "Authentication Failed, Credentials Do Not Match"),
       example_db).
Proof.
  split.
  - apply (login_outcomes example_sign example_settings 0
             {| Login.email := "bob@example.com"; Login.password := "Password1!" |}
             example_db).
    exists example_user. split; reflexivity.
  - apply (login_outcomes example_sign example_settings 0
             {| Login.email := "bob@example.com"; Login.password := "password1!" |}
             example_db).
    intros u Hu.
    assert (Hl : users example_db !! "bob@example.com" = Some example_user)
      by (by vm_compute).
    change (users example_db !! "bob@example.com" = Some u) in Hu.
    rewrite Hl in Hu. injection Hu as <-.
    intros Hpw. vm_compute in Hpw. discriminate Hpw.
Defined.

(** X16. The token of a successful [login], sent back as a Bearer header
    before its expiration, is accepted by [decode_access_token], and the
    claims it yields are the login email under [user_email] and the
    expiration under [exp]. *)
Theorem login_then_decode (sign : string → string → string → string)
    (settings : Settings) (now t : Z) (login_payload : Login.t) (db : Database)
    (u : UserRow) :
  users db !! Login.email login_payload = Some u →
  users_password u = Login.password login_payload →
  t < now + 60 * ACCESS_TOKEN_EXPIRE_MINUTES settings →
  ∃ access_token,
    login sign settings now login_payload db
    = (Return (TokenResponse access_token "bearer"), db)
    ∧ decode_access_token sign settings t (Some ("Bearer " +:+ access_token))
      = Return (<["exp" := VInt (now + 60 * ACCESS_TOKEN_EXPIRE_MINUTES settings)]>
                  {["user_email" := VStr (Login.email login_payload)]}).
Proof.
  intros Hu Hpw Ht. eexists. split.
  - rewrite login_run, Hu, Hpw, String.eqb_refl. reflexivity.
  - rewrite decode_created_plain by apply login_claims_plain.
    destruct (_ <=? t) eqn:E; [lia|done].
Qed.

Lemma login_then_decode_witness :
  ∃ access_token,
    login example_sign example_settings 0
      {| Login.email := "bob@example.com"; Login.password := "Password1!" |} example_db
    = (Return (TokenResponse access_token "bearer"), example_db)
    ∧ decode_access_token example_sign example_settings 10
        (Some ("Bearer " +:+ access_token))
      = Return (<["exp" := VInt (0 + 60 * 30)]> bob_token).
Proof.
  apply (login_then_decode example_sign example_settings 0 10
           {| Login.email := "bob@example.com"; Login.password := "Password1!" |}
           example_db example_user).
  - reflexivity.
  - reflexivity.
  - cbn. lia.
Defined.

(** X17. From login to deletion: with the token of a successful login,
    sent before it expires, the delete route removes a post owned by the
    login email, and answers HTTP 403 with the database untouched for a
    post owned by someone else or by nobody. *)
Theorem login_then_delete_post (sign : string → string → string → string)
    (settings : Settings) (now t : Z) (login_payload : Login.t) (db : Database)
    (u : UserRow) (id : Z) (p : PostRow) :
  users db !! Login.email login_payload = Some u →
  users_password u = Login.password login_payload →
  t < now + 60 * ACCESS_TOKEN_EXPIRE_MINUTES settings →
  posts db !! id = Some p →
  ∃ access_token,
    login sign settings now login_payload db
    = (Return (TokenResponse access_token "bearer"), db)
    ∧ (posts_email p = Some (Login.email login_payload) →
       ∃ db', delete_post_route sign settings t (Some ("Bearer " +:+ access_token)) id db
              = (Return "Post is successfully deleted.", db')
              ∧ posts db' !! id = None)
    ∧ (posts_email p ≠ Some (Login.email login_payload) →
       ∃ detail,
         delete_post_route sign settings t (Some ("Bearer " +:+ access_token)) id db
         = (Raise (HTTPException 403 detail), db)).
Proof.
  intros Hu Hpw Ht Hp. eexists. split.
  - rewrite login_run, Hu, Hpw, String.eqb_refl. reflexivity.
  - unfold delete_post_route, Depends_decode_access_token.
    rewrite decode_created_plain by apply login_claims_plain.
    destruct (_ <=? t) eqn:E; [lia|].
    set (token_data := <["exp" := _]> _).
    assert (Hemail : token_data !! "user_email"
                     = Some (VStr (Login.email login_payload))).
    { unfold token_data. rewrite lookup_insert_ne by done.
      apply lookup_singleton_eq. }
    split.
    + intros Ho. rewrite (delete_post_owner id token_data db p _ Hp Ho Hemail).
      rewrite (DropPost_found id db p) by done.
      eexists. split; [done|]. cbn. apply lookup_delete_eq.
    + intros Hne.
      destruct (verify_post_owner_run id (token_data !! "user_email") "delete" db)
        as [(p' & e' & Hp' & Ho' & He' & _)|[_ [detail Hv]]].
      * assert (p' = p) as -> by congruence.
        rewrite Hemail in He'. congruence.
      * exists detail. unfold delete_post, mbind, M_bind. by rewrite Hv.
Qed.

Lemma login_then_delete_post_witness :
  ∃ access_token db',
    login example_sign example_settings 0
      {| Login.email := "ann@example.com"; Login.password := "Password1!" |}
      (example_db_voted 1)
    = (Return (TokenResponse access_token "bearer"), example_db_voted 1)
    ∧ delete_post_route example_sign example_settings 10
        (Some ("Bearer " +:+ access_token)) 1 (example_db_voted 1)
      = (Return "Post is successfully deleted.", db')
    ∧ posts db' !! 1 = None.
Proof.
  destruct (login_then_delete_post example_sign example_settings 0 10
              {| Login.email := "ann@example.com"; Login.password := "Password1!" |}
              (example_db_voted 1) example_user 1
              (example_post (Some "ann@example.com")))
    as (access_token & Hlogin & Hown & _).
  - reflexivity.
  - reflexivity.
  - cbn. lia.
  - reflexivity.
  - destruct Hown as (db' & Hrun & Hgone); [reflexivity|].
    exists access_token, db'. split; [exact Hlogin|].
    split; [exact Hrun|exact Hgone].
Defined.

(** X18. From login to a vote: with the token of a successful login, sent
    before it expires, the vote route on an existing post with a valid
    direction succeeds and writes the row of the login email: status 1
    for a first vote, the direction or abs of the old status minus 1
    afterwards. The voter is registered because the login succeeded. *)
Theorem login_then_like_post (sign : string → string → string → string)
    (settings : Settings) (now t store_now : Z) (login_payload : Login.t)
    (db : Database) (u : UserRow) (vote : Vote) :
  users db !! Login.email login_payload = Some u →
  users_password u = Login.password login_payload →
  t < now + 60 * ACCESS_TOKEN_EXPIRE_MINUTES settings →
  is_Some (posts db !! id_ vote) →
  in_directions (direction_of_vote vote) = true →
  ∃ access_token response db',
    login sign settings now login_payload db
    = (Return (TokenResponse access_token "bearer"), db)
    ∧ like_post_route sign settings t store_now (Some ("Bearer " +:+ access_token))
        vote db
      = (Return response, db')
    ∧ status_of db' (id_ vote) (Login.email login_payload)
      = Some match status_of db (id_ vote) (Login.email login_payload) with
             | None => 1
             | Some x =>
                 if 0 <=? direction_of_vote vote then direction_of_vote vote
                 else Z.abs x - 1
             end.
Proof.
  intros Hu Hpw Ht Hp Hd.
  set (token_data := <["exp" := VInt (now + 60 * ACCESS_TOKEN_EXPIRE_MINUTES settings)]>
                       ({["user_email" := VStr (Login.email login_payload)]}
                        : gmap string value)).
  assert (Hemail : token_data !! "user_email"
                   = Some (VStr (Login.email login_payload))).
  { unfold token_data. rewrite lookup_insert_ne by done.
    apply lookup_singleton_eq. }
  assert (Hroute : like_post_route sign settings t store_now
                     (Some ("Bearer " +:+ create_access_token sign settings now
                                           {["user_email" :=
                                               VStr (Login.email login_payload)]}))
                     vote db
                   = like_post store_now vote token_data db).
  { unfold like_post_route, Depends_decode_access_token.
    rewrite decode_created_plain by apply login_claims_plain.
    destruct (_ <=? t) eqn:E; [lia|done]. }
  assert (Hrun : ∃ response,
             like_post store_now vote token_data db
             = (Return response, (like_post store_now vote token_data db).2)).
  { destruct (post_likes db !! (id_ vote, Login.email login_payload)) as [r|] eqn:Hrow.
    - rewrite (like_post_later_vote store_now vote token_data db _ r) by done.
      by eexists.
    - rewrite (like_post_first_vote store_now vote token_data db
                 (Login.email login_payload)) by (done || by eexists).
      by eexists. }
  destruct Hrun as [response Hrun].
  eexists _, response, _. split; [|split].
  - rewrite login_run, Hu, Hpw, String.eqb_refl. reflexivity.
  - rewrite Hroute. exact Hrun.
  - rewrite (like_post_status store_now vote token_data db _ Hemail), Hd.
    destruct (status_of db (id_ vote) (Login.email login_payload)) as [x|].
    + do 2 f_equal. unfold rewritten_status. apply in_directions_cases in Hd.
      destruct (0 <=? direction_of_vote vote) eqn:E; lia.
    + rewrite decide_True; [done|]. split; [done|by eexists].
Qed.

Lemma login_then_like_post_witness :
  ∃ access_token response db',
    login example_sign example_settings 0
      {| Login.email := "bob@example.com"; Login.password := "Password1!" |} example_db
    = (Return (TokenResponse access_token "bearer"), example_db)
    ∧ like_post_route example_sign example_settings 10 11
        (Some ("Bearer " +:+ access_token)) (example_vote (-1) 1) example_db
      = (Return response, db')
    ∧ status_of db' 1 "bob@example.com" = Some 1.
Proof.
  destruct (login_then_like_post example_sign example_settings 0 10 11
              {| Login.email := "bob@example.com"; Login.password := "Password1!" |}
              example_db example_user (example_vote (-1) 1))
    as (access_token & response & db' & Hlogin & Hroute & Hstatus).
  - reflexivity.
  - reflexivity.
  - cbn. lia.
  - vm_compute. eauto.
  - reflexivity.
  - exists access_token, response, db'. split; [exact Hlogin|].
    split; [exact Hroute|]. exact Hstatus.
Defined.

(* ===================================================================== *)
(** ** Looking a post up *)
(* ===================================================================== *)

Lemma filter_enumerate_absent {A} (k : Z) (n : nat) (l : list (Z * A)) :
  k ∉ l.*1 →
  filter (λ ir : nat * (Z * A), ir.2.1 = k) (enumerate_from n l) = [].
Proof.
  revert n. induction l as [|[k' x'] l IH]; intros n Hk; [done|].
  cbn [enumerate_from]. cbn in Hk.
  apply not_elem_of_cons in Hk as [Hne Hk].
  rewrite filter_cons_False by (cbn; congruence). by apply IH.
Qed.

Lemma filter_enumerate_present {A} (k : Z) (x : A) (n : nat) (l : list (Z * A)) :
  NoDup l.*1 → (k, x) ∈ l →
  ∃ i, filter (λ ir : nat * (Z * A), ir.2.1 = k) (enumerate_from n l)
       = [(i, (k, x))].
Proof.
  revert n. induction l as [|[k' x'] l IH]; intros n Hnd Hin.
  - by apply elem_of_nil in Hin.
  - cbn in Hnd. apply NoDup_cons in Hnd as [Hk' Hnd].
    cbn [enumerate_from].
    apply elem_of_cons in Hin as [[= <- <-]|Hin].
    + exists n. rewrite filter_cons_True by done.
      by rewrite filter_enumerate_absent.
    + assert (k' ≠ k).
      { intros ->. apply Hk'. apply list_elem_of_fmap. by exists (k, x). }
      rewrite filter_cons_False by (cbn; congruence). by apply IH.
Qed.

Lemma posts_columns_lookup {V} (f : string → V) (column : string) :
  column ∈ posts_columns →
  (list_to_map ((λ c, (c, f c)) <$> posts_columns) : gmap string V) !! column
  = Some (f column).
Proof.
  intros Hin. apply elem_of_list_to_map_1.
  - rewrite <- list_fmap_compose.
    apply (bool_decide_unpack _). vm_compute. exact I.
  - apply list_elem_of_fmap. by exists column.
Qed.

(** X19. [get_post] never answers 404. The dictionary of [find_post] has
    the seven columns of [posts] whether or not a row matches, so it is
    never empty, the test [if p] always passes and the error branch is
    never taken: for an id that is not in the store the handler returns
    the seven columns, each empty, with the status code left alone. *)
Theorem get_post_never_404 id token_data db :
  ∃ p,
    get_post id token_data db = (Return (FoundPost p, None), db)
    ∧ (∀ column, column ∈ posts_columns → is_Some (p !! column))
    ∧ (posts db !! id = None →
       ∀ column, column ∈ posts_columns → p !! column = Some ∅).
Proof.
  unfold get_post, find_post, read_table_posts, mbind, M_bind, mret, M_ret.
  set (selected := filter _ _).
  set (p := list_to_map _).
  assert (Hcol : ∀ column, column ∈ posts_columns →
                 p !! column
                 = Some (list_to_map
                           ((λ ir : nat * (Z * PostRow),
                               (ir.1, posts_cell column ir.2.1 ir.2.2))
                            <$> selected))).
  { intros column Hin. unfold p.
    by rewrite (posts_columns_lookup
                  (λ column, list_to_map
                     ((λ ir : nat * (Z * PostRow),
                         (ir.1, posts_cell column ir.2.1 ir.2.2)) <$> selected))). }
  exists p. split; [|split].
  - rewrite bool_decide_eq_true_2; [done|].
    intros Hempty.
    assert (Hid : "id" ∈ posts_columns) by (apply (bool_decide_unpack _); by vm_compute).
    specialize (Hcol "id" Hid). rewrite Hempty, lookup_empty in Hcol. discriminate.
  - intros column Hin. rewrite (Hcol column Hin). by eexists.
  - intros Hmissing column Hin. rewrite (Hcol column Hin). f_equal.
    unfold selected. rewrite filter_enumerate_absent; [done|].
    intros Hk. apply list_elem_of_fmap in Hk as ([k r] & -> & Hkr).
    apply elem_of_map_to_list in Hkr. cbn in Hmissing. congruence.
Qed.

(** X20. For an id that is in the store, [get_post] returns, under each of
    the seven columns, exactly one entry: the cell of that post, at the
    index label of its row. *)
Theorem get_post_found id token_data db r :
  posts db !! id = Some r →
  ∃ p i,
    get_post id token_data db = (Return (FoundPost p, None), db)
    ∧ ∀ column, column ∈ posts_columns →
        p !! column = Some {[ i := posts_cell column id r ]}.
Proof.
  intros Hr.
  unfold get_post, find_post, read_table_posts, mbind, M_bind, mret, M_ret.
  destruct (filter_enumerate_present id r 0 (map_to_list (posts db))) as [i Hsel].
  { apply NoDup_fst_map_to_list. }
  { by apply elem_of_map_to_list. }
  rewrite Hsel.
  set (p := list_to_map _).
  assert (Hcol : ∀ column, column ∈ posts_columns →
                 p !! column = Some {[ i := posts_cell column id r ]}).
  { intros column Hin. unfold p.
    rewrite (posts_columns_lookup
               (λ column, list_to_map
                  ((λ ir : nat * (Z * PostRow),
                      (ir.1, posts_cell column ir.2.1 ir.2.2)) <$> [(i, (id, r))])))
      by done.
    cbn. by rewrite insert_empty. }
  exists p, i. split; [|done].
  rewrite bool_decide_eq_true_2; [done|].
  intros Hempty.
  assert (Hid : "id" ∈ posts_columns) by (apply (bool_decide_unpack _); by vm_compute).
  specialize (Hcol "id" Hid). rewrite Hempty, lookup_empty in Hcol. discriminate.
Qed.

Lemma get_post_found_witness :
  ∃ p i,
    get_post 1 bob_token example_db = (Return (FoundPost p, None), example_db)
    ∧ p !! "email" = Some {[ i := CStr "ann@example.com" ]}.
Proof.
  destruct (get_post_found 1 bob_token example_db (example_post (Some "ann@example.com")))
    as (p & i & Hrun & Hcol).
  - reflexivity.
  - exists p, i. split; [exact Hrun|].
    apply (Hcol "email"). apply (bool_decide_unpack _). by vm_compute.
Defined.

Lemma get_post_never_404_witness :
  ∃ p,
    get_post 7 bob_token example_db = (Return (FoundPost p, None), example_db)
    ∧ p !! "title" = Some ∅.
Proof.
  destruct (get_post_never_404 7 bob_token example_db) as (p & Hrun & _ & Hempty).
  exists p. split; [exact Hrun|].
  apply Hempty; [reflexivity|].
  apply (bool_decide_unpack _). by vm_compute.
Defined.

(* ===================================================================== *)
(** ** Passwords and user creation *)
(* ===================================================================== *)

Lemma any_char_true (f : ascii → bool) (s : string) :
  any_char f s = true ↔ ∃ char, has_char char s = true ∧ f char = true.
Proof.
  induction s as [|c s IH]; cbn [any_char has_char].
  - split; [done|]. by intros (char & [=] & _).
  - rewrite orb_true_iff, IH. split.
    + intros [Hc|(char & Hin & Hf)].
      * exists c. by rewrite Ascii.eqb_refl.
      * exists char. by rewrite Hin, orb_true_r.
    + intros (char & [Heq|Hin]%orb_true_iff & Hf).
      * apply Ascii.eqb_eq in Heq. subst. by left.
      * right. by exists char.
Qed.

(** X21. [validate_password] accepts exactly the passwords that have more
    than 8 characters, at least one uppercase character and at least one
    of the characters *&!#$%. A password of 8 characters or fewer gets
    the length message whatever else it lacks. *)
Theorem validate_password_accepts password :
  (validate_password password = PasswordAccepted
   ↔ (8 < String.length password)%nat
     ∧ (∃ char, has_char char password = true ∧ isupper char = true)
     ∧ (∃ char, has_char char password = true ∧ has_char char "*&!#$%" = true))
  ∧ ((String.length password ≤ 8)%nat →
     validate_password password
     = PasswordError "Password must be greater than 8 characters.").
Proof.
  unfold validate_password.
  rewrite <- !any_char_true.
  destruct (String.length password <=? 8)%nat eqn:Hlen.
  - apply Nat.leb_le in Hlen. split; [|done]. split; [done|lia].
  - apply Nat.leb_gt in Hlen. split; [|lia].
    destruct (any_char isupper password); cbn [negb].
    + destruct (any_char _ password); cbn [negb].
      * split; [by intros _|done].
      * split; [done|]. by intros (_ & _ & [=]).
    + split; [done|]. by intros (_ & [=] & _).
Qed.

Lemma validate_password_accepts_witness :
  validate_password "Password1!" = PasswordAccepted
  ∧ validate_password "P!" = PasswordError "Password must be greater than 8 characters.".
Proof.
  destruct (validate_password_accepts "Password1!") as [Hacc _].
  destruct (validate_password_accepts "P!") as [_ Hshort].
  split.
  - apply Hacc. split; [cbn; lia|]. split.
    + by exists "P"%char.
    + by exists "!"%char.
  - apply Hshort. cbn. lia.
Defined.

(** X22. [create_user] hands the user to the store only when the password
    passes [validate_password]: with a rejected password it returns the
    password message and the database is untouched, whatever the store
    would do; and it answers "The user has been successfully created"
    only if the password passed and the insert went through. *)
Theorem create_user_password_gate
    (insert_dataframe_to_table_users : User.t → Database → to_sql_outcome * Database)
    (user : User.t) (db : Database) :
  (∀ message,
     validate_password (User.password user) = PasswordError message →
     create_user insert_dataframe_to_table_users user db = (Return message, db))
  ∧ ((create_user insert_dataframe_to_table_users user db).1
     = Return "The user has been successfully created" →
     validate_password (User.password user) = PasswordAccepted
     ∧ insert_dataframe_to_table_users user db
       = (Inserted, (create_user insert_dataframe_to_table_users user db).2)).
Proof.
  unfold create_user. split.
  - intros message ->. done.
  - destruct (validate_password (User.password user)) as [|message] eqn:Hv.
    + destruct (insert_dataframe_to_table_users user db) as [[|[] text|text] db'];
        cbn [fst snd]; [done|discriminate..].
    + cbn [fst]. intros [= ->]. unfold validate_password in Hv.
      destruct (String.length _ <=? 8)%nat; [discriminate|].
      destruct (negb (any_char isupper _)); [discriminate|].
      destruct (negb (any_char _ _)); discriminate.
Qed.

Lemma create_user_password_gate_witness :
  create_user (λ _ db, (Inserted, db))
    {| User.phone_number := "0100"; User.email := "eve@example.com";
       User.password := "password"; User.city := "Cairo"; User.country := "Egypt" |}
    example_db
  = (Return "Password must be greater than 8 characters.", example_db).
Proof.
  apply (create_user_password_gate (λ _ db, (Inserted, db))
           {| User.phone_number := "0100"; User.email := "eve@example.com";
              User.password := "password"; User.city := "Cairo";
              User.country := "Egypt" |} example_db).
  reflexivity.
Defined.

(* ===================================================================== *)
(** ** Updating posts *)
(* ===================================================================== *)

(** X23. [update_post] reaches the store only for the owner, whatever the
    store does with the statement: unless the caller's email is the
    non-null owner email of an existing post it raises HTTP 403 and the
    database is untouched; for the owner it runs one UPDATE whose
    assignments are exactly title, content and published of the body and
    [updated_at] at the clock, and answers by whether a row came back. *)
Theorem update_post_guard
    (execute_update_posts : gmap string field → Z → Database → result bool * Database)
    (now id : Z) (post : Post.t) (token_data : gmap string value) (db : Database) :
  (∃ p e, posts db !! id = Some p ∧ posts_email p = Some e
          ∧ token_data !! "user_email" = Some (VStr e)
          ∧ update_post execute_update_posts now id post token_data db
            = match execute_update_posts
                      (<["updated_at" := FTime now]> (model_dump post)) id db with
              | (Return true, db') => (Return "Post updated successfully.", db')
              | (Return false, db') =>
                  (Return "Post does not exist or was already deleted.", db')
              | (Raise x, db') => (Raise x, db')
              end)
  ∨ ∃ detail,
      update_post execute_update_posts now id post token_data db
      = (Raise (HTTPException 403 detail), db).
Proof.
  unfold update_post, mbind, M_bind.
  destruct (verify_post_owner_run id (token_data !! "user_email") "update" db)
    as [(p & e & Hp & Ho & He & ->)|[_ [detail ->]]]; [|right; by exists detail].
  left. exists p, e. repeat (split; [done|]).
  unfold UpdatePost, mbind, M_bind, mret, M_ret.
  assert (Hid : model_dump post !! "id" = None) by (by vm_compute).
  rewrite (bool_decide_eq_false_2 (is_Some (model_dump post !! "id")))
    by (rewrite Hid; apply is_Some_None).
  rewrite bool_decide_eq_false_2.
  2:{ intros Hempty.
      assert (Ht : model_dump post !! "title" = Some (FStr (Post.title post)))
        by apply lookup_insert_eq.
      rewrite Hempty, lookup_empty in Ht. discriminate. }
  destruct (execute_update_posts _ id db) as [[[]|x] db']; done.
Qed.

(** X24. [UpdatePost] with a dictionary that has no key other than 'id'
    (the empty one included) returns 'No valid fields to update.' and runs
    no statement: the database is untouched whatever the store would
    do. *)
Theorem UpdatePost_nothing_to_update
    (execute_update_posts : gmap string field → Z → Database → result bool * Database)
    (now post_id : Z) (updates : gmap string field) (db : Database) :
  (∀ k, k ≠ "id" → updates !! k = None) →
  UpdatePost execute_update_posts now post_id updates db
  = (Return "No valid fields to update.", db).
Proof.
  intros Honly. unfold UpdatePost.
  assert (Hempty : (if bool_decide (is_Some (updates !! "id"))
                    then delete "id" updates else updates) = ∅).
  { apply map_eq. intros k. rewrite lookup_empty.
    destruct (decide (k = "id")) as [->|Hne].
    - destruct (updates !! "id") as [v|] eqn:Hid.
      + rewrite bool_decide_eq_true_2 by (by eexists). apply lookup_delete_eq.
      + by rewrite bool_decide_eq_false_2 by apply is_Some_None.
    - destruct (bool_decide (is_Some (updates !! "id"))).
      + rewrite lookup_delete_ne by done. by apply Honly.
      + by apply Honly. }
  rewrite Hempty. by rewrite bool_decide_eq_true_2.
Qed.

Lemma UpdatePost_nothing_to_update_witness :
  UpdatePost (λ _ _ db, (Raise TypeError, db)) 5 1 {["id" := FStr "9"]} example_db
  = (Return "No valid fields to update.", example_db).
Proof.
  apply (UpdatePost_nothing_to_update (λ _ _ db, (Raise TypeError, db)) 5 1
           {["id" := FStr "9"]} example_db).
  intros k Hk. by apply lookup_singleton_ne.
Defined.
